(** * Detection fusion, schema validation and anonymization for banking PII

    A shallow embedding of the pipeline of the repository:
    - [backend/main.py]: [validate_entity] with cross-validation, [_predict],
      [_anonymize] and the validation loop of [validated_detect_pii];
    - [backend/enhanced_main.py]: [_predict], [_merge_entities], [_anonymize];
    - [backend/validated_enhanced_main.py]: the strict [validate_entity],
      [detect_with_regex] and the loop of [detect_comprehensive];
    - [enhanced_pii_detector.py]: [_merge_entities] (same text as the one of
      [backend/enhanced_main.py]).

    Python values are modelled as follows.  A [str] is a list of characters
    (category names, methods and messages, which are only compared and
    concatenated, are [string]s).  An [int] is a [Z].  A confidence is a finite
    float, embedded exactly in [Q]; NaN and infinities are outside the model.
    A [dict] with a fixed set of keys is a record, an optional key an
    [option].  The schema table, a [dict] iterated in insertion order, is an
    association list.  The [re] module and the token classifier are external:
    a compiled pattern is a record carrying its source and its [match]
    function, and the classifier is a function that returns results or raises. *)

From Stdlib Require Import ZArith QArith Bool List String Ascii Lia.
From Stdlib Require Import DecimalString.
From Stdlib Require Import Qminmax Permutation Sorted.
Import ListNotations.

Local Open Scope string_scope.
Local Open Scope list_scope.
Local Open Scope Z_scope.

(** ** Python strings and slicing *)

Definition text := list ascii.

Definition str (s : string) : text := list_ascii_of_string s.

Definition len {A} (l : list A) : Z := Z.of_nat (List.length l).

(** An index of a slice: a negative one counts from the end, and the result
    is clamped to [0, len]. *)
Definition slice_index (n i : Z) : Z :=
  if i <? 0 then Z.max 0 (n + i) else Z.min i n.

(** [l[:s]] *)
Definition slice_to {A} (l : list A) (s : Z) : list A :=
  firstn (Z.to_nat (slice_index (len l) s)) l.

(** [l[e:]] *)
Definition slice_from {A} (l : list A) (e : Z) : list A :=
  skipn (Z.to_nat (slice_index (len l) e)) l.

(** [l[s:e]] *)
Definition slice {A} (l : list A) (s e : Z) : list A :=
  let lo := slice_index (len l) s in
  let hi := slice_index (len l) e in
  firstn (Z.to_nat (hi - lo)) (skipn (Z.to_nat lo) l).

(** [str.strip()] removes the characters for which [str.isspace] holds; in
    the first 256 code points these are 9-13, 28-32, 133 and 160. *)
Definition isspace (c : ascii) : bool :=
  let n := Z.of_nat (nat_of_ascii c) in
  ((9 <=? n) && (n <=? 13)) || ((28 <=? n) && (n <=? 32))
  || (n =? 133) || (n =? 160).

(** [not text or not text.strip()] *)
Definition blank (t : text) : bool := forallb isspace t.

(** ** Candidate entities *)

(** The dict built by every detector.  [method] is absent from the entities
    of [main.py]'s [_predict], and [_merge_entities] tests for it. *)
Record Entity := mkEntity {
  entity_group : string;
  word : text;
  start : Z;
  end_ : Z;
  score : Q;
  method : option string
}.

(** The float literals [0.95] and [0.9] of the detectors: the binary64
    values nearest to 95/100 and 9/10. *)
Definition float_0_95 : Q := (4278419646001971 # 4503599627370496)%Q.
Definition float_0_9 : Q := (8106479329266893 # 9007199254740992)%Q.

(** [max(a, b)] on floats: the first argument unless the second is greater. *)
Definition fmax (a b : Q) : Q := if Qle_bool b a then a else b.

(** ** Sorting by [start]

    [list.sort(key=...)] and [sorted(key=..., reverse=True)] are stable: with
    [reverse] too, elements of equal key keep their original order. *)

Definition key_le (reverse : bool) (a b : Entity) : bool :=
  if reverse then start b <=? start a else start a <=? start b.

Fixpoint insert_by_start (reverse : bool) (x : Entity) (l : list Entity)
  : list Entity :=
  match l with
  | [] => [x]
  | y :: l' =>
      if key_le reverse x y then x :: y :: l'
      else y :: insert_by_start reverse x l'
  end.

Definition sort_by_start (reverse : bool) (l : list Entity) : list Entity :=
  fold_right (insert_by_start reverse) [] l.

(** The order of the keys as a relation. *)
Definition key_rel (reverse : bool) (a b : Entity) : Prop :=
  key_le reverse a b = true.

(** ** Entity fuser: [_merge_entities]

    [backend/enhanced_main.py] and [enhanced_pii_detector.py] hold the same
    function. *)

(** The test of the loop body. *)
Definition overlaps (current entity : Entity) : bool :=
  (start entity <? end_ current)
  && String.eqb (entity_group entity) (entity_group current).

(** The assignments of the merging branch. *)
Definition absorb (current entity : Entity) : Entity :=
  {| entity_group := entity_group current;
     word := word entity;
     start := start current;
     end_ := Z.max (end_ current) (end_ entity);
     score := fmax (score current) (score entity);
     method :=
       match method entity with
       | Some m =>
           Some (match method current with Some c => c | None => "" end
                 ++ "+" ++ m)%string
       | None => method current
       end |}.

(** One iteration of the loop, on the state [(merged, current)]. *)
Definition merge_step (st : list Entity * Entity) (entity : Entity)
  : list Entity * Entity :=
  let (merged, current) := st in
  if overlaps current entity then (merged, absorb current entity)
  else (merged ++ [current], entity).

Definition _merge_entities (entities : list Entity) : list Entity :=
  match entities with
  | [] => []
  | _ :: _ =>
      match sort_by_start false entities with
      | [] => []
      | first :: rest =>
          let (merged, current) := fold_left merge_step rest ([], first) in
          merged ++ [current]
      end
  end.

(** The list the loop produces from [current] and the candidates still to
    be examined, with the closed entities in front: the loop of
    [_merge_entities] read as a recursion. *)
Fixpoint scan (current : Entity) (rest : list Entity) : list Entity :=
  match rest with
  | [] => [current]
  | entity :: rest' =>
      if overlaps current entity then scan (absorb current entity) rest'
      else current :: scan entity rest'
  end.

(** No entity of the list can be merged into the one before it. *)
Fixpoint separated (l : list Entity) : Prop :=
  match l with
  | [] => True
  | a :: l' =>
      match l' with
      | [] => True
      | b :: _ => overlaps a b = false
      end /\ separated l'
  end.

(** ** Anonymizer: [_anonymize]

    The three backends hold the same function.  [int(ent["start"])] is the
    identity on the integers an entity carries. *)

(** [redacted[:s] + replacement + redacted[e:]] *)
Definition splice (replacement : text) (redacted : text) (ent : Entity) : text :=
  slice_to redacted (start ent) ++ replacement ++ slice_from redacted (end_ ent).

Definition _anonymize (t : text) (entities : list Entity) (replacement : text)
  : text :=
  match entities with
  | [] => t
  | _ :: _ => fold_left (splice replacement) (sort_by_start true entities) t
  end.

(** ** Schema store *)

(** A compiled [re.Pattern]: its source, [pattern.pattern], and
    [pattern.match], which tests whether the pattern matches at the start of
    the text. *)
Record Pattern := mkPattern {
  pattern : string;
  re_match : text -> bool
}.

(** The category table: category to compiled pattern, or to [None] when the
    compilation failed, in the order of the schema file. *)
Definition Patterns := list (string * option Pattern).

(** [patterns[category]], with [None] for [category not in patterns]. *)
Fixpoint lookup (patterns : Patterns) (category : string)
  : option (option Pattern) :=
  match patterns with
  | [] => None
  | (c, p) :: rest =>
      if String.eqb c category then Some p else lookup rest category
  end.

Definition categories (patterns : Patterns) : list string := map fst patterns.

(** ** Validation verdicts *)

Record Verdict := mkVerdict {
  valid : bool;
  reason : string;
  confidence : Q;
  corrected_category : option string;
  original_category : option string
}.

Inductive Status := VALID | FILTERED.

(** An entity with its verdict, as appended to one of the two output lists:
    [{**entity, 'validation': ..., 'status': ...}], with [filter_reason] on
    the filtered side and [original_category] on the corrected side. *)
Record Validated := mkValidated {
  entity : Entity;
  validation : Verdict;
  status : Status;
  filter_reason : option string;
  entity_original_category : option string
}.

(** [confidence >= min_confidence] *)
Definition ge_conf (c min_confidence : Q) : bool := Qle_bool min_confidence c.

(** ** Exceptions and the token classifier

    [ValueError] and [TypeError] are the two classes the per-result handler
    of [_predict] catches; [Exception] stands for any other class
    ([OverflowError], [RuntimeError], ...); [HTTPException] is the one
    [main.py] raises.  The [msg] of the first three is what [str(e)]
    returns. *)

Inductive exn :=
| ValueError (msg : string)
| TypeError (msg : string)
| Exception (msg : string)
| HTTPException (status_code : Z) (detail : string).

(** [str(n)] on an integer: its decimal numeral. *)
Definition str_of_int (n : Z) : string := NilZero.string_of_int (Z.to_int n).

(** [str(e)]; an [HTTPException] prints as [f"{status_code}: {detail}"]. *)
Definition exn_str (e : exn) : string :=
  match e with
  | ValueError m | TypeError m | Exception m => m
  | HTTPException status_code d => str_of_int status_code ++ ": " ++ d
  end.

Inductive result (A : Type) :=
| Ok (a : A)
| Raise (e : exn).
Arguments Ok {A} a.
Arguments Raise {A} e.

Definition bind {A B} (m : result A) (k : A -> result B) : result B :=
  match m with
  | Ok a => k a
  | Raise e => Raise e
  end.

Notation "x <- m ;; k" := (bind m (fun x => k))
  (at level 61, m at next level, right associativity).

(** A value found under a numeric key of a classifier result.  [PyOpaque e]
    is any object on which [int()] and [float()] raise [e]: a list or a dict
    ([TypeError]), a non-numeric string ([ValueError]). *)
Inductive pyval :=
| PyNone
| PyInt (z : Z)
| PyFloat (q : Q)
| PyOpaque (e : exn).

(** [int(v)]: truncation toward zero on a float. *)
Definition py_int (v : pyval) : result Z :=
  match v with
  | PyNone => Raise (TypeError "int() argument must be a string, a bytes-like object or a real number, not 'NoneType'")
  | PyInt z => Ok z
  | PyFloat q => Ok (Z.quot (Qnum q) (Z.pos (Qden q)))
  | PyOpaque e => Raise e
  end.

(** [float(z)] on an integer: the nearest binary64 value, ties to the even
    significand, and an [OverflowError] when that value would reach
    [2**1024].  An integer of at most 53 bits is kept as it is; a longer one
    keeps its 53 leading bits, rounded. *)
Definition float_of_int (z : Z) : result Q :=
  let a := Z.abs z in
  let bits := if a =? 0 then 0 else Z.log2 a + 1 in
  if bits <=? 53 then Ok (inject_Z z)
  else
    let shift := bits - 53 in
    let q := Z.shiftr a shift in
    let rest := a - Z.shiftl q shift in
    let half := Z.shiftl 1 (shift - 1) in
    let q' := if (half <? rest) || ((rest =? half) && Z.odd q)
              then q + 1 else q in
    let m := Z.shiftl q' shift in
    if 2 ^ 1024 <=? m
    then Raise (Exception "int too large to convert to float")
    else Ok (inject_Z (Z.sgn z * m)).

(** [float(v)] *)
Definition py_float (v : pyval) : result Q :=
  match v with
  | PyNone => Raise (TypeError "float() argument must be a string or a real number, not 'NoneType'")
  | PyInt z => float_of_int z
  | PyFloat q => Ok q
  | PyOpaque e => Raise e
  end.

(** One dict of the classifier's output; [None] is an absent key.  The label
    and surface-form keys hold strings. *)
Record RawResult := mkRaw {
  r_entity_group : option string;
  r_entity : option string;
  r_score : option pyval;
  r_word : option text;
  r_start : option pyval;
  r_end : option pyval
}.

(** The classifier: [pipe(text)] returns its results or raises. *)
Definition Pipe := text -> result (list RawResult).

(** [coerce(r.get(k, d)) if r.get(k) is not None else d] *)
Definition get_coerced {A} (coerce : pyval -> result A) (field : option pyval)
  (default : A) : result A :=
  match field with
  | None | Some PyNone => Ok default
  | Some v => coerce v
  end.

(** [a or b] on strings: the empty string is falsy. *)
Definition or_label (a : option string) (b : string) : string :=
  match a with
  | Some s => if String.eqb s "" then b else s
  | None => b
  end.

(** The classes of [except (ValueError, TypeError)]. *)
Definition per_result (e : exn) : bool :=
  match e with
  | ValueError _ | TypeError _ => true
  | _ => false
  end.

(** The two offsets of a result, coerced as [_predict] does. *)
Definition offsets (r : RawResult) : result (Z * Z) :=
  start <- get_coerced py_int (r_start r) 0 ;;
  end_ <- get_coerced py_int (r_end r) 0 ;;
  Ok (start, end_).

(** The body of the inner [try] of [_predict]: the dict appended for [r].
    [with_method] tells whether the backend tags the entity with
    ["method": "ml"]. *)
Definition normalize (with_method : bool) (t : text) (r : RawResult)
  : result Entity :=
  start <- get_coerced py_int (r_start r) 0 ;;
  end_ <- get_coerced py_int (r_end r) 0 ;;
  let actual_word := slice t start end_ in
  let label := or_label (r_entity_group r) (or_label (r_entity r) "UNKNOWN") in
  score <- get_coerced py_float (r_score r) (0 # 1)%Q ;;
  Ok {| entity_group := label; word := actual_word;
        start := start; end_ := end_; score := score;
        method := if with_method then Some "ml" else None |}.

(** The [for r in results] loop with its [except (ValueError, TypeError):
    continue]; any other exception leaves the loop. *)
Fixpoint normalize_results (with_method : bool) (t : text)
  (results : list RawResult) (normalized_results : list Entity)
  : result (list Entity) :=
  match results with
  | [] => Ok normalized_results
  | r :: rest =>
      match normalize with_method t r with
      | Ok e => normalize_results with_method t rest (normalized_results ++ [e])
      | Raise (ValueError _) | Raise (TypeError _) =>
          normalize_results with_method t rest normalized_results
      | Raise e => Raise e
      end
  end.

(** The body of the outer [try]. *)
Definition infer (with_method : bool) (pipe : Pipe) (t : text)
  : result (list Entity) :=
  results <- pipe t ;;
  normalize_results with_method t results [].

(** ** [backend/main.py] *)

Module Main.

Definition specific_categories : list string :=
  ["PAN"; "TELEPHONENUM"; "AADHAAR"; "DRIVERLICENSENUM"; "EMAIL"; "IFSC";
   "VOTERID"; "PASSPORTNUM"; "CREDITCARDNUM"; "TRANSACTIONID"; "GENDER";
   "DATE"; "TIME"; "AGE"; "ZIPCODE"; "BUILDINGNUM"].

(** The condition of the first loop:
    [other_category in patterns and patterns[other_category] and
     patterns[other_category].match(text)]. *)
Definition specific_hit (patterns : Patterns) (t : text) (other_category : string)
  : bool :=
  match lookup patterns other_category with
  | Some (Some p) => re_match p t
  | _ => false
  end.

(** The condition of the second loop, over [patterns.items()]. *)
Definition other_hit (t : text) (item : string * option Pattern) : bool :=
  let (other_category, other_pattern) := item in
  negb (String.eqb other_category "STREET")
  && match other_pattern with
     | Some p => negb (String.eqb (pattern p) ".*") && re_match p t
     | None => false
     end.

Definition cross_validated (category other_category : string) (c : Q) : Verdict :=
  {| valid := true;
     reason := ("Cross-validated: matches " ++ other_category
                ++ " pattern instead of " ++ category)%string;
     confidence := c;
     corrected_category := Some other_category;
     original_category := Some category |}.

Definition validate_entity (patterns : Patterns) (category : string) (t : text)
  (c : Q) : Verdict :=
  match lookup patterns category with
  | None =>
      {| valid := false;
         reason := ("Unknown category: " ++ category)%string;
         confidence := c;
         corrected_category := None; original_category := None |}
  | Some None =>
      {| valid := false;
         reason := ("No validation pattern available for " ++ category)%string;
         confidence := c;
         corrected_category := None; original_category := None |}
  | Some (Some p) =>
      if re_match p t then
        {| valid := true;
           reason := ("Matches " ++ category ++ " schema pattern")%string;
           confidence := c;
           corrected_category := Some category; original_category := None |}
      else
        match find (specific_hit patterns t) specific_categories with
        | Some other_category => cross_validated category other_category c
        | None =>
            match find (other_hit t) patterns with
            | Some (other_category, _) =>
                cross_validated category other_category c
            | None =>
                {| valid := false;
                   reason := ("Does not match " ++ category
                              ++ " schema pattern: " ++ pattern p)%string;
                   confidence := c;
                   corrected_category := None; original_category := None |}
            end
        end
  end.

(** [_predict]: the outer handler raises [HTTPException(500)]. *)
Definition _predict (pipe : Pipe) (t : text) : result (list Entity) :=
  if blank t then Ok []
  else
    match infer false pipe t with
    | Ok normalized_results => Ok normalized_results
    | Raise e =>
        Raise (HTTPException 500 ("Inference error: " ++ exn_str e)%string)
    end.

(** [/api/bert/extract]: the response, or the exception that reaches the
    transport layer.  [None] is a model that failed to load. *)
Definition extract_pii_bert (_bert_pipe : option Pipe) (t : text)
  : result (list Entity) :=
  match _bert_pipe with
  | None => Raise (HTTPException 503 "BERT model not loaded")
  | Some pipe => _predict pipe t
  end.

(** [if payload.use_ml and pipe: try: ... except Exception: print(...)] *)
Definition ml_entities (use_ml : bool) (pipe : option Pipe) (t : text)
  : list Entity :=
  match use_ml, pipe with
  | true, Some p =>
      match _predict p t with
      | Ok entities => entities
      | Raise _ => []
      end
  | _, _ => []
  end.

(** One iteration of the validation loop of [validated_detect_pii], on the
    state [(valid_entities, filtered_entities)]. *)
Definition validate_step (patterns : Patterns) (min_confidence : Q)
  (st : list Validated * list Validated) (e : Entity)
  : list Validated * list Validated :=
  let (valid_entities, filtered_entities) := st in
  let category := entity_group e in
  let validation := validate_entity patterns category (word e) (score e) in
  if valid validation && ge_conf (score e) min_confidence then
    let corrected_entity :=
      match corrected_category validation with
      | Some corrected =>
          {| entity := {| entity_group := corrected; word := word e;
                          start := start e; end_ := end_ e; score := score e;
                          method := method e |};
             validation := validation; status := VALID;
             filter_reason := None;
             entity_original_category := Some category |}
      | None =>
          {| entity := e; validation := validation; status := VALID;
             filter_reason := None; entity_original_category := None |}
      end in
    (valid_entities ++ [corrected_entity], filtered_entities)
  else
    (valid_entities,
     filtered_entities ++
       [{| entity := e; validation := validation; status := FILTERED;
           filter_reason := Some (reason validation);
           entity_original_category := None |}]).

(** [validated_detect_pii], without its summary. *)
Definition validated_detect_pii (patterns : Patterns)
  (_bert_pipe _llama_pipe : option Pipe) (t : text) (use_ml : bool)
  (min_confidence : Q) : list Validated * list Validated :=
  if blank t then ([], [])
  else
    let all_entities :=
      ml_entities use_ml _bert_pipe t ++ ml_entities use_ml _llama_pipe t in
    fold_left (validate_step patterns min_confidence) all_entities ([], []).

End Main.

(** ** [backend/enhanced_main.py] *)

Module Enhanced.

(** [_predict] with what it prints: the outer handler prints one line and
    returns the empty list.  [backend/validated_enhanced_main.py] holds the
    same function. *)
Definition _predict_run (pipe : Pipe) (t : text) : list string * list Entity :=
  if blank t then ([], [])
  else
    match infer true pipe t with
    | Ok normalized_results => ([], normalized_results)
    | Raise e => ([("❌ ML inference error: " ++ exn_str e)%string], [])
    end.

(** The value [_predict] returns. *)
Definition _predict (pipe : Pipe) (t : text) : list Entity :=
  snd (_predict_run pipe t).

End Enhanced.

(** ** [backend/validated_enhanced_main.py] *)

(** A match object of the [re] module, seen through one of its groups:
    [match.group(g)], [match.start(g)] and [match.end(g)]. *)
Record Match := mkMatch {
  m_group : text;
  m_start : Z;
  m_end : Z
}.

Module ValidatedEnhanced.

(** [validate_entity] of this backend has no cross-validation and no
    [corrected_category]. *)
Definition validate_entity (validation_patterns : Patterns) (category : string)
  (t : text) (c : Q) : Verdict :=
  match lookup validation_patterns category with
  | None =>
      {| valid := false;
         reason := ("Unknown category: " ++ category)%string;
         confidence := c;
         corrected_category := None; original_category := None |}
  | Some None =>
      {| valid := false;
         reason := ("No validation pattern available for " ++ category)%string;
         confidence := c;
         corrected_category := None; original_category := None |}
  | Some (Some p) =>
      if re_match p t then
        {| valid := true; reason := "Matches schema pattern";
           confidence := c;
           corrected_category := None; original_category := None |}
      else
        {| valid := false;
           reason := ("Does not match schema pattern: " ++ pattern p)%string;
           confidence := c;
           corrected_category := None; original_category := None |}
  end.

(** The cue patterns of [detect_contextual_pii], as written in the source
    (raw strings, so each backslash is a character of the pattern). *)
Definition contextual_patterns : list (string * string) :=
  [ ("(?:name|Name|NAME)\s*:?\s*([A-Z][a-z]+\s+[A-Z][a-z]+)", "FULLNAME");
    ("(?:email|Email|EMAIL)\s*:?\s*([a-zA-Z0-9_.+-]+@[a-zA-Z0-9-]+\.[a-zA-Z0-9-.]+)", "EMAIL");
    ("(?:phone|Phone|PHONE|mobile|Mobile|MOBILE)\s*:?\s*((?:\+91[-\\s]?|0)?[6789]\\d{9})", "TELEPHONENUM");
    ("(?:address|Address|ADDRESS)\s*:?\s*([A-Za-z0-9\\s,]+(?:Street|Road|Avenue|Lane|Drive|Way|Boulevard|Place))", "STREET");
    ("(?:city|City|CITY)\s*:?\s*([A-Za-z\\s]+)", "CITY");
    ("(?:pincode|Pincode|PINCODE|zip|Zip|ZIP)\s*:?\s*(\\d{6})", "ZIPCODE");
    ("(?:age|Age|AGE)\s*:?\s*(\\d{1,3})", "AGE");
    ("(?:gender|Gender|GENDER|sex|Sex|SEX)\s*:?\s*(M|F|Male|Female|MALE|FEMALE)", "GENDER");
    ("(?:pan|PAN|pan\s*number|PAN\s*Number)\s*:?\s*([A-Z]{3}[PFCHAT][A-Z]\\d{4}[A-Z])", "PAN");
    ("(?:aadhaar|Aadhaar|AADHAAR|aadhar|Aadhar|AADHAR)\s*:?\s*(\\d{4}\\s\\d{4}\\s\\d{4})", "AADHAAR");
    ("(?:passport|Passport|PASSPORT|passport\s*number|Passport\s*Number)\s*:?\s*([A-Z]\\d{7})", "PASSPORTNUM");
    ("(?:account|Account|ACCOUNT|account\s*number|Account\s*Number)\s*:?\s*(\\d{9,18})", "ACCOUNTNUM");
    ("(?:ifsc|IFSC|ifsc\s*code|IFSC\s*Code)\s*:?\s*([A-Z]{4}0[A-Z0-9]{6})", "IFSC");
    ("(?:credit\s*card|Credit\s*Card|CREDIT\s*CARD|card\s*number|Card\s*Number)\s*:?\s*(\\d{4}\\s\\d{4}\\s\\d{4}\\s\\d{4})", "CREDITCARDNUM");
    ("(?:transaction|Transaction|TRANSACTION|txn|TXN|transaction\s*id|Transaction\s*ID)\s*:?\s*([0-9a-fA-F]{8}-[0-9a-fA-F]{4}-[1-5][0-9a-fA-F]{3}-[89abAB][0-9a-fA-F]{3}-[0-9a-fA-F]{12})", "TRANSACTIONID");
    ("(?:date|Date|DATE|dob|DOB|birth|Birth|BIRTH)\s*:?\s*(\\d{2}[-/]\\d{2}[-/]\\d{4})", "DATE");
    ("(?:driver|Driver|DRIVER|license|License|LICENSE)\s*:?\s*([A-Z]{2}[-\\s]?\\d{2}[-\\s]?\\d{4}[-\\s]?\\d{7})", "DRIVERLICENSENUM") ].

Section Detector.

(** The detector's state and the regex engine: the compiled schema patterns,
    the compiled enhanced patterns, [pattern.finditer(text)] seen through
    group 0, and [re.finditer(source, text, re.IGNORECASE)] seen through
    group 1. *)
Variable validation_patterns : Patterns.
Variable regex_patterns : Patterns.
Variable finditer : Pattern -> text -> list Match.
Variable re_finditer : string -> text -> list Match.

Definition detect_with_regex (t : text) : list Entity :=
  flat_map
    (fun item : string * option Pattern =>
       let (category, compiled) := item in
       match compiled with
       | None => []
       | Some p =>
           map (fun m =>
                  {| entity_group := category; word := m_group m;
                     start := m_start m; end_ := m_end m;
                     score := float_0_95; method := Some "regex_enhanced" |})
               (finditer p t)
       end)
    regex_patterns.

Definition detect_contextual_pii (t : text) : list Entity :=
  flat_map
    (fun item : string * string =>
       let (source, category) := item in
       map (fun m =>
              {| entity_group := category; word := m_group m;
                 start := m_start m; end_ := m_end m;
                 score := float_0_9; method := Some "contextual" |})
           (re_finditer source t))
    contextual_patterns.

(** One iteration of the validation loop of [detect_comprehensive], on the
    state [(validated_entities, results['filtered_entities'])]. *)
Definition validate_step (min_confidence : Q)
  (st : list Validated * list Validated) (e : Entity)
  : list Validated * list Validated :=
  let (validated_entities, filtered_entities) := st in
  let validation :=
    validate_entity validation_patterns (entity_group e) (word e) (score e) in
  if valid validation && ge_conf (score e) min_confidence then
    (validated_entities ++
       [{| entity := e; validation := validation; status := VALID;
           filter_reason := None; entity_original_category := None |}],
     filtered_entities)
  else
    (validated_entities,
     filtered_entities ++
       [{| entity := e; validation := validation; status := FILTERED;
           filter_reason := Some (reason validation);
           entity_original_category := None |}]).

(** [detect_comprehensive], without its summary: the pair of
    [results['entities']] and [results['filtered_entities']]. *)
Definition detect_comprehensive (t : text) (min_confidence : Q)
  : list Validated * list Validated :=
  let entities := detect_with_regex t ++ detect_contextual_pii t in
  fold_left (validate_step min_confidence) entities ([], []).

End Detector.

End ValidatedEnhanced.

(** ** [backend/enhanced_main.py]: the detector and its endpoints *)

Module EnhancedService.

(** The cue patterns of [detect_contextual_pii] of this backend. *)
Definition contextual_patterns : list (string * string) :=
  [
    ("(?:name|Name|NAME)\s*:?\s*([A-Z][a-z]+\s+[A-Z][a-z]+)", "FULLNAME");
    ("(?:email|Email|EMAIL)\s*:?\s*([a-zA-Z0-9_.+-]+@[a-zA-Z0-9-]+\.[a-zA-Z0-9-.]+)", "EMAIL");
    ("(?:phone|Phone|PHONE|mobile|Mobile|MOBILE)\s*:?\s*((?:\+91[-\\s]?|0)?[6789]\\d{9})", "TELEPHONENUM");
    ("(?:address|Address|ADDRESS)\s*:?\s*([A-Za-z0-9\\s,]+(?:Street|Road|Avenue|Lane|Drive|Way|Boulevard|Place))", "STREET");
    ("(?:city|City|CITY)\s*:?\s*([A-Za-z\\s]+)", "CITY");
    ("(?:pincode|Pincode|PINCODE|zip|Zip|ZIP)\s*:?\s*(\\d{6})", "ZIPCODE");
    ("(?:age|Age|AGE)\s*:?\s*(\\d{1,3})", "AGE");
    ("(?:gender|Gender|GENDER|sex|Sex|SEX)\s*:?\s*(M|F|Male|Female|MALE|FEMALE)", "GENDER");
    ("(?:pan|PAN|pan\s*number|PAN\s*Number)\s*:?\s*([A-Z]{3}[PFCHAT][A-Z]\\d{4}[A-Z])", "PAN");
    ("(?:aadhaar|Aadhaar|AADHAAR|aadhar|Aadhar|AADHAR)\s*:?\s*(\\d{4}\\s\\d{4}\\s\\d{4})", "AADHAAR");
    ("(?:passport|Passport|PASSPORT|passport\s*number|Passport\s*Number)\s*:?\s*([A-Z]\\d{7})", "PASSPORTNUM");
    ("(?:account|Account|ACCOUNT|account\s*number|Account\s*Number)\s*:?\s*(\\d{9,18})", "ACCOUNTNUM");
    ("(?:ifsc|IFSC|ifsc\s*code|IFSC\s*Code)\s*:?\s*([A-Z]{4}0[A-Z0-9]{6})", "IFSC");
    ("(?:credit\s*card|Credit\s*Card|CREDIT\s*CARD|card\s*number|Card\s*Number)\s*:?\s*(\\d{4}\\s\\d{4}\\s\\d{4}\\s\\d{4})", "CREDITCARDNUM");
    ("(?:transaction|Transaction|TRANSACTION|txn|TXN|transaction\s*id|Transaction\s*ID)\s*:?\s*([0-9a-fA-F]{8}-[0-9a-fA-F]{4}-[1-5][0-9a-fA-F]{3}-[89abAB][0-9a-fA-F]{3}-[0-9a-fA-F]{12})", "TRANSACTIONID") ].

(** The two patterns of [detect_name_patterns]. *)
Definition fullname_pattern : string := "\b[A-Z][a-z]+\s+[A-Z][a-z]+\b".

Definition indian_name_pattern : string :=
  "\b[A-Z][a-z]+\s+(?:Kumar|Singh|Sharma|Verma|Mehta|Patel|Gupta|Agarwal|Jain|Shah)\b".

Section Service.

(** The regex engine: [pattern.finditer(text)] seen through group 0,
    [re.finditer(source, text, re.IGNORECASE)] seen through group 1, and
    [re.finditer(source, text)] seen through group 0. *)
Variable finditer : Pattern -> text -> list Match.
Variable re_finditer : string -> text -> list Match.
Variable re_finditer_cs : string -> text -> list Match.

Definition detect_with_regex (regex_patterns : Patterns) (t : text)
  : list Entity :=
  flat_map
    (fun item : string * option Pattern =>
       let (category, compiled) := item in
       match compiled with
       | None => []
       | Some p =>
           map (fun m =>
                  {| entity_group := category; word := m_group m;
                     start := m_start m; end_ := m_end m;
                     score := float_0_95; method := Some "regex_enhanced" |})
               (finditer p t)
       end)
    regex_patterns.

Definition detect_name_patterns (t : text) : list Entity :=
  map (fun m =>
         {| entity_group := "FULLNAME"; word := m_group m;
            start := m_start m; end_ := m_end m;
            score := float_0_9; method := Some "name_pattern" |})
      (re_finditer_cs fullname_pattern t)
  ++ map (fun m =>
            {| entity_group := "FULLNAME"; word := m_group m;
               start := m_start m; end_ := m_end m;
               score := float_0_95; method := Some "indian_name_pattern" |})
         (re_finditer_cs indian_name_pattern t).

Definition detect_contextual_pii (t : text) : list Entity :=
  flat_map
    (fun item : string * string =>
       let (source, category) := item in
       map (fun m =>
              {| entity_group := category; word := m_group m;
                 start := m_start m; end_ := m_end m;
                 score := float_0_9; method := Some "contextual" |})
           (re_finditer source t))
    contextual_patterns.

(** [if pipe: entities.extend(_predict(pipe, text))] *)
Definition ml_entities (pipe : option Pipe) (t : text) : list Entity :=
  match pipe with
  | Some p => Enhanced._predict p t
  | None => []
  end.

(** The candidates [enhanced_detect_pii] collects before it filters them.
    [_enhanced_detector] is the detector's compiled pattern table. *)
Definition collect (regex_patterns : Patterns) (_bert_pipe _llama_pipe : option Pipe)
  (t : text) (use_regex use_contextual use_ml : bool) : list Entity :=
  (if use_regex then detect_with_regex regex_patterns t else [])
  ++ (if use_contextual
      then detect_contextual_pii t ++ detect_name_patterns t else [])
  ++ (if use_ml then ml_entities _bert_pipe t ++ ml_entities _llama_pipe t
      else []).

(** [enhanced_detect_pii], without its summary: the ["entities"] of the
    response, or the exception of a detector that failed to load. *)
Definition enhanced_detect_pii (_enhanced_detector : option Patterns)
  (_bert_pipe _llama_pipe : option Pipe)
  (t : text) (use_regex use_contextual use_ml : bool) (min_confidence : Q)
  : result (list Entity) :=
  match _enhanced_detector with
  | None => Raise (HTTPException 503 "Enhanced PII Detector not loaded")
  | Some regex_patterns =>
      let entities :=
        collect regex_patterns _bert_pipe _llama_pipe t
                use_regex use_contextual use_ml in
      let entities :=
        filter (fun e => ge_conf (score e) min_confidence) entities in
      Ok (_merge_entities entities)
  end.

(** [enhanced_anonymize_pii]: the ["entities"] and the ["redacted"] text. *)
Definition enhanced_anonymize_pii (_enhanced_detector : option Patterns)
  (_bert_pipe _llama_pipe : option Pipe) (t replacement : text)
  : result (list Entity * text) :=
  entities <- enhanced_detect_pii _enhanced_detector _bert_pipe _llama_pipe t
                true true true (1 # 2)%Q ;;
  Ok (entities, _anonymize t entities replacement).

End Service.

End EnhancedService.

(** ** [backend/main.py]: the anonymizing endpoints *)

Module MainService.

(** [/api/llama/anonymize]: the ["entities"] and the ["redacted"] text. *)
Definition anonymize_pii_llama (_llama_pipe : option Pipe) (t replacement : text)
  : result (list Entity * text) :=
  match _llama_pipe with
  | None => Raise (HTTPException 503 "LLaMA model not loaded")
  | Some pipe =>
      entities <- Main._predict pipe t ;;
      Ok (entities, _anonymize t entities replacement)
  end.

(** [/api/validated/anonymize]: the valid entities, the filtered entities
    and the ["redacted"] text. *)
Definition validated_anonymize_pii (patterns : Patterns)
  (_bert_pipe _llama_pipe : option Pipe) (t replacement : text)
  : list Validated * list Validated * text :=
  let detection_result :=
    Main.validated_detect_pii patterns _bert_pipe _llama_pipe t true (1 # 2)%Q in
  let entities := fst detection_result in
  (entities, snd detection_result,
   _anonymize t (map entity entities) replacement).

End MainService.

(** ** [backend/validated_enhanced_main.py]: the summary counters *)

Module ValidatedSummary.

(** One iteration of the validation loop of [detect_comprehensive] with its
    counter, on the state
    [(validated_entities, results['filtered_entities'], filtered_count)]. *)
Definition counting_step (validation_patterns : Patterns) (min_confidence : Q)
  (st : list Validated * list Validated * Z) (e : Entity)
  : list Validated * list Validated * Z :=
  let '(validated_entities, filtered_entities, filtered_count) := st in
  let validation :=
    ValidatedEnhanced.validate_entity validation_patterns
      (entity_group e) (word e) (score e) in
  if valid validation && ge_conf (score e) min_confidence then
    (validated_entities ++
       [{| entity := e; validation := validation; status := VALID;
           filter_reason := None; entity_original_category := None |}],
     filtered_entities, filtered_count)
  else
    (validated_entities,
     filtered_entities ++
       [{| entity := e; validation := validation; status := FILTERED;
           filter_reason := Some (reason validation);
           entity_original_category := None |}],
     filtered_count + 1).

(** The two lists of [detect_comprehensive] with the integer fields of its
    summary: [total_entities] and [filtered_entities]. *)
Definition detect_comprehensive_counts (validation_patterns : Patterns)
  (entities : list Entity) (min_confidence : Q)
  : list Validated * list Validated * (Z * Z) :=
  let '(validated_entities, filtered_entities, filtered_count) :=
    fold_left (counting_step validation_patterns min_confidence) entities
              ([], [], 0) in
  (validated_entities, filtered_entities,
   (len validated_entities, filtered_count)).

End ValidatedSummary.

(** ** [enhanced_pii_detector.py]: [detect_with_ml] *)

Module PIIDetector.

(** The dict built for one result: the keys are read with [r.get(k, d)], so
    that only an absent key takes the default, and the surface form the
    classifier reports is kept as [word]. *)
Definition convert (model_type : string) (r : RawResult) : result Entity :=
  let label := match r_entity_group r with Some s => s | None => "UNKNOWN" end in
  let surface := match r_word r with Some w => w | None => [] end in
  start <- py_int (match r_start r with Some v => v | None => PyInt 0 end) ;;
  end_ <- py_int (match r_end r with Some v => v | None => PyInt 0 end) ;;
  score <- py_float (match r_score r with
                     | Some v => v
                     | None => PyFloat (0 # 1)
                     end) ;;
  Ok {| entity_group := label; word := surface;
        start := start; end_ := end_; score := score;
        method := Some ("ml_" ++ model_type)%string |}.

(** The [for r in results] loop: any exception leaves it. *)
Fixpoint convert_results (model_type : string) (results : list RawResult)
  (entities : list Entity) : result (list Entity) :=
  match results with
  | [] => Ok entities
  | r :: rest =>
      e <- convert model_type r ;;
      convert_results model_type rest (entities ++ [e])
  end.

Definition detect_with_ml (bert_pipe llama_pipe : option Pipe) (t : text)
  (model_type : string) : list Entity :=
  let pipe := if String.eqb model_type "bert" then bert_pipe else llama_pipe in
  match pipe with
  | None => []
  | Some p =>
      match (results <- p t ;; convert_results model_type results []) with
      | Ok entities => entities
      | Raise _ => []
      end
  end.

End PIIDetector.

(** ** Specification-side definitions

    The definitions of this part follow the words of the specification; the
    theorems compare them with the code above. *)

Module Spec.

(** *** Entity fuser (section 4.4) *)

(** A candidate entity carries its provenance tag. *)
Definition has_method (e : Entity) : Prop := method e <> None.

(** A stable sort of [X] by [start] ascending: a rearrangement of [X] into
    non-decreasing [start] in which the candidates of equal [start] keep
    their original emission order. *)
Definition stable_sort_by_start (X S : list Entity) : Prop :=
  Permutation X S
  /\ StronglySorted (fun a b => start a <= start b) S
  /\ forall k, filter (fun e => start e =? k) S = filter (fun e => start e =? k) X.

(** "[end = max(current.end, next.end)], [text] is taken from [...] the most
    recently examined, [score = max(current.score, next.score)], [method]
    becomes the concatenation of both methods joined by [+]". *)
Definition fuse (current next : Entity) : Entity :=
  {| entity_group := entity_group current;
     word := word next;
     start := start current;
     end_ := Z.max (end_ current) (end_ next);
     score := Qmax (score current) (score next);
     method :=
       match method current, method next with
       | Some a, Some b => Some (a ++ "+" ++ b)%string
       | _, _ => None
       end |}.

(** The walk over the sorted list with a current open entity: an overlapping
    candidate of the same category is merged into it; any other candidate
    closes it and opens a new one; the last open entity is flushed. *)
Fixpoint walk (current : Entity) (rest : list Entity) : list Entity :=
  match rest with
  | [] => [current]
  | next :: rest' =>
      if (start next <? end_ current)
         && String.eqb (entity_group current) (entity_group next)
      then walk (fuse current next) rest'
      else current :: walk next rest'
  end.

Definition merge_sorted (S : list Entity) : list Entity :=
  match S with
  | [] => []
  | first :: rest => walk first rest
  end.

(** *** Anonymizer (section 4.6) *)

(** The data-model invariant of a span, inside a text of length [n] and
    inside the text [t]. *)
Definition span_within (n : Z) (e : Entity) : Prop :=
  0 <= start e < end_ e /\ end_ e <= n.

Definition valid_span (t : text) (e : Entity) : Prop := span_within (len t) e.

(** The order in which non-overlapping spans are processed: every later
    entity of the list ends where an earlier one starts, or before. *)
Definition right_to_left (D : list Entity) : Prop :=
  StronglySorted (fun a b => end_ b <= start a) D.

Definition disjoint (a b : Entity) : Prop :=
  end_ a <= start b \/ end_ b <= start a.

Definition non_overlapping (entities : list Entity) : Prop :=
  ForallOrdPairs disjoint entities.

(** The text in which every span of [S], a list in ascending order, is
    replaced by [R] once and the characters between spans are kept: the gap
    from [pos] to the next span, the token, and so on from the span's end. *)
Fixpoint stitch (t R : text) (pos : Z) (S : list Entity) : text :=
  match S with
  | [] => slice_from t pos
  | e :: S' => slice t pos (start e) ++ R ++ stitch t R (end_ e) S'
  end.

(** [sum(end - start for e in entities)] *)
Definition span_total (entities : list Entity) : Z :=
  fold_right (fun e acc => (end_ e - start e) + acc) 0 entities.

(** *** Schema validator (section 4.5) *)

(** [pattern_for(c)] is usable and matches [t] from the start. *)
Definition matches (patterns : Patterns) (t : text) (c : string) : bool :=
  match lookup patterns c with
  | Some (Some p) => re_match p t
  | _ => false
  end.

(** The pattern of [c] is the universal wildcard. *)
Definition wildcard (patterns : Patterns) (c : string) : bool :=
  match lookup patterns c with
  | Some (Some p) => String.eqb (pattern p) ".*"
  | _ => false
  end.

Definition mem (c : string) (l : list string) : bool :=
  existsb (String.eqb c) l.

(** The order in which cross-validation tries the categories other than
    [category]: the prioritized list, then the remaining categories in table
    order, without those whose pattern is the universal wildcard.  With
    [skip_street], the category named [STREET] is left out of the second
    part whatever its pattern. *)
Definition cross_order (skip_street : bool) (patterns : Patterns)
  (category : string) : list string :=
  filter (fun c => negb (String.eqb c category)) Main.specific_categories
  ++ filter (fun c => negb (String.eqb c category)
                      && negb (mem c Main.specific_categories)
                      && negb (wildcard patterns c)
                      && negb (skip_street && String.eqb c "STREET"))
            (categories patterns).

(** The first other category, in that order, whose pattern matches. *)
Definition cross_validate (skip_street : bool) (patterns : Patterns)
  (category : string) (t : text) : option string :=
  find (matches patterns t) (cross_order skip_street patterns category).

(** *** Acceptance (sections 3 and 4.5) *)

(** "An entity is accepted only if [valid] and
    [confidence >= min_confidence]". *)
Definition accepted (verdict : Entity -> Verdict) (min_confidence : Q)
  (e : Entity) : bool :=
  valid (verdict e) && Qle_bool min_confidence (score e).

(** A valid entity and a filtered entity: the candidate with its verdict and
    status, the filtered one with the verdict's reason. *)
Definition kept (verdict : Entity -> Verdict) (e : Entity) : Validated :=
  {| entity := e; validation := verdict e; status := VALID;
     filter_reason := None; entity_original_category := None |}.

Definition dropped (verdict : Entity -> Verdict) (e : Entity) : Validated :=
  {| entity := e; validation := verdict e; status := FILTERED;
     filter_reason := Some (reason (verdict e));
     entity_original_category := None |}.

(** A valid entity of [main.py]: its category is the corrected one and the
    category it came with is recorded. *)
Definition relabelled (verdict : Entity -> Verdict) (e : Entity) : Validated :=
  match corrected_category (verdict e) with
  | Some corrected =>
      {| entity := {| entity_group := corrected; word := word e;
                      start := start e; end_ := end_ e; score := score e;
                      method := method e |};
         validation := verdict e; status := VALID; filter_reason := None;
         entity_original_category := Some (entity_group e) |}
  | None => kept verdict e
  end.

(** *** Span validity (section 8) *)

(** The contract of a match object of the [re] module on the text [t]: a
    non-empty span inside the text, and the substring it covers. *)
Definition match_in (t : text) (m : Match) : Prop :=
  0 <= m_start m < m_end m /\ m_end m <= len t
  /\ m_group m = slice t (m_start m) (m_end m).

Definition span_ok (t : text) (e : Entity) : Prop :=
  valid_span t e /\ slice t (start e) (end_ e) = word e.

End Spec.

(** Concrete patterns for the examples: a pattern without metacharacters,
    which matches the texts that start with it, and the universal wildcard. *)
Fixpoint starts_with (s t : text) : bool :=
  match s, t with
  | [], _ => true
  | _ :: _, [] => false
  | a :: s', b :: t' => Ascii.eqb a b && starts_with s' t'
  end.

Definition literal (source : string) : Pattern :=
  {| pattern := source; re_match := starts_with (str source) |}.

Definition dot_star : Pattern :=
  {| pattern := ".*"; re_match := fun _ => true |}.

(** ** Notions used by the further properties *)

(** [o] has the category of [e] and its span contains the span of [e]. *)
Definition covers (o e : Entity) : Prop :=
  entity_group o = entity_group e /\ start o <= start e /\ end_ e <= end_ o.

(** Every field of [o] is read from an entity of [l]. *)
Definition drawn_from (l : list Entity) (o : Entity) : Prop :=
  (exists a, In a l /\ start o = start a /\ entity_group o = entity_group a)
  /\ (exists b, In b l /\ end_ o = end_ b)
  /\ (exists c, In c l /\ score o = score c)
  /\ (exists d, In d l /\ word o = word d).

(** A result that reports no offset: both keys absent or [None]. *)
Definition no_offsets (r : RawResult) : Prop :=
  (r_start r = None \/ r_start r = Some PyNone)
  /\ (r_end r = None \/ r_end r = Some PyNone).

(** The entity [_predict] appends for a result, if any. *)
Definition normalized (wm : bool) (t : text) (r : RawResult) : list Entity :=
  match normalize wm t r with
  | Ok e => [e]
  | Raise _ => []
  end.

(** The coercions of [r] raise nothing but [ValueError] or [TypeError]. *)
Definition soft (wm : bool) (t : text) (r : RawResult) : Prop :=
  forall x, normalize wm t r = Raise x -> per_result x = true.

(** ** Data of the examples *)

Definition email_regex : Entity :=
  {| entity_group := "EMAIL"; word := str "arun@x.co"; start := 0; end_ := 9;
     score := (95 # 100)%Q; method := Some "regex" |}.

Definition email_ml : Entity :=
  {| entity_group := "EMAIL"; word := str "arun@x.co"; start := 0; end_ := 9;
     score := (9 # 10)%Q; method := Some "ml" |}.

Definition phone_regex : Entity :=
  {| entity_group := "TELEPHONENUM"; word := str "9876543210";
     start := 29; end_ := 39; score := (95 # 100)%Q; method := Some "regex" |}.

Definition street_table : Patterns :=
  [("CITY", Some (literal "Pune")); ("STREET", Some (literal "MG Road"))].

Definition phone_table : Patterns :=
  [("AADHAAR", Some (literal "1234 5678 9012"));
   ("TELEPHONENUM", Some (literal "9876543210"));
   ("STREET", Some dot_star)].

Definition wildcard_table : Patterns :=
  [("STREET", Some dot_star); ("CITY", Some dot_star);
   ("PAN", Some (literal "AAAPA1234A")); ("GIVENNAME", Some (literal "Arun"))].

Definition mail_text : text := str "Call 9876543210 now and mail arun@x.co".

Definition phone_at_5 : Entity :=
  {| entity_group := "TELEPHONENUM"; word := str "9876543210";
     start := 5; end_ := 15; score := (95 # 100)%Q; method := Some "regex" |}.

Definition email_at_29 : Entity :=
  {| entity_group := "EMAIL"; word := str "arun@x.co"; start := 29; end_ := 38;
     score := (9 # 10)%Q; method := Some "ml" |}.

(** The classifier of the counterexample: one labelled span without
    offsets, as a pipeline over a slow tokenizer reports it. *)
Definition pipe_without_offsets : Pipe :=
  fun _ =>
    Ok [ {| r_entity_group := Some "EMAIL"; r_entity := None;
            r_score := Some (PyFloat (99 # 100)); r_word := Some (str "arun");
            r_start := Some PyNone; r_end := Some PyNone |} ].

(** A classifier that reports the offsets of the phone number. *)
Definition pipe_with_offsets : Pipe :=
  fun _ =>
    Ok [ {| r_entity_group := Some "TELEPHONENUM"; r_entity := None;
            r_score := Some (PyFloat (9 # 10)); r_word := Some (str "##3210");
            r_start := Some (PyInt 12); r_end := Some (PyInt 22) |} ].

(** A regex engine that finds the phone number of the example text. *)
Definition phone_matches (t : text) : list Match :=
  if starts_with (str "9876543210") (slice t 12 22)
  then [ {| m_group := str "9876543210"; m_start := 12; m_end := 22 |} ]
  else [].

(** A classifier whose call raises. *)
Definition failing_pipe : Pipe := fun _ => Raise (Exception "CUDA out of memory").

(** Two results, the second with an integer score beyond the range of a
    float. *)
Definition pipe_with_huge_score : Pipe :=
  fun _ =>
    Ok [ {| r_entity_group := Some "TELEPHONENUM"; r_entity := None;
            r_score := Some (PyFloat (9 # 10)); r_word := Some (str "##3210");
            r_start := Some (PyInt 12); r_end := Some (PyInt 22) |};
         {| r_entity_group := Some "EMAIL"; r_entity := None;
            r_score := Some (PyInt (10 ^ 400)); r_word := Some (str "arun");
            r_start := Some (PyInt 0); r_end := Some (PyInt 4) |} ].

(** A classifier whose call raises an [HTTPException]. *)
Definition busy_pipe : Pipe := fun _ => Raise (HTTPException 503 "model busy").

(** Two results, the first with offsets that [int()] rejects. *)
Definition pipe_with_bad_offsets : Pipe :=
  fun _ =>
    Ok ([] ++
        {| r_entity_group := Some "EMAIL"; r_entity := None;
           r_score := Some (PyFloat (8 # 10)); r_word := Some (str "arun");
           r_start := Some (PyOpaque (TypeError "int() argument must be a string, a bytes-like object or a real number, not 'list'"));
           r_end := Some (PyInt 4) |}
        :: [ {| r_entity_group := Some "TELEPHONENUM"; r_entity := None;
                r_score := Some (PyFloat (9 # 10));
                r_word := Some (str "##3210");
                r_start := Some (PyInt 12); r_end := Some (PyInt 22) |} ]).

(** Two results, the second with an offset on which [int()] raises an
    [OverflowError]. *)
Definition overflow_result : RawResult :=
  {| r_entity_group := Some "EMAIL"; r_entity := None;
     r_score := Some (PyFloat (8 # 10)); r_word := Some (str "arun");
     r_start := Some (PyOpaque (Exception "cannot convert float infinity to integer"));
     r_end := Some (PyInt 4) |}.

Definition pipe_with_overflow : Pipe :=
  fun _ =>
    Ok [ {| r_entity_group := Some "TELEPHONENUM"; r_entity := None;
            r_score := Some (PyFloat (9 # 10)); r_word := Some (str "##3210");
            r_start := Some (PyInt 12); r_end := Some (PyInt 22) |};
         overflow_result ].

(** * Theorems *)

(** ** The stable sort *)

Section Sorting.

Variable reverse : bool.

Lemma key_le_total a b :
  key_le reverse a b = false -> key_rel reverse b a.
Proof.
  unfold key_rel, key_le. destruct reverse; intros H.
  - apply Z.leb_gt in H. apply Z.leb_le. lia.
  - apply Z.leb_gt in H. apply Z.leb_le. lia.
Qed.

Lemma key_rel_trans a b c :
  key_rel reverse a b -> key_rel reverse b c -> key_rel reverse a c.
Proof.
  unfold key_rel, key_le. destruct reverse; rewrite !Z.leb_le; lia.
Qed.

Lemma key_le_false_start a b : key_le reverse a b = false -> start a <> start b.
Proof.
  unfold key_le. destruct reverse; intros H; apply Z.leb_gt in H; lia.
Qed.

Lemma insert_perm x l : Permutation (x :: l) (insert_by_start reverse x l).
Proof.
  induction l as [|y l IH]; simpl.
  - apply Permutation_refl.
  - destruct (key_le reverse x y).
    + apply Permutation_refl.
    + eapply perm_trans; [apply perm_swap|]. now apply perm_skip.
Qed.

Lemma sort_perm l : Permutation l (sort_by_start reverse l).
Proof.
  induction l as [|x l IH]; simpl.
  - constructor.
  - eapply perm_trans; [apply perm_skip, IH|]. apply insert_perm.
Qed.

Lemma sort_length l :
  List.length (sort_by_start reverse l) = List.length l.
Proof. symmetry. apply Permutation_length, sort_perm. Qed.

Lemma insert_sorted x l :
  StronglySorted (key_rel reverse) l ->
  StronglySorted (key_rel reverse) (insert_by_start reverse x l).
Proof.
  induction 1 as [|y l Hl IH Hy]; simpl.
  - repeat constructor.
  - destruct (key_le reverse x y) eqn:E.
    + constructor; [now constructor|].
      constructor; [exact E|].
      eapply Forall_impl; [|exact Hy].
      intros z Hz. eapply key_rel_trans; eauto.
    + constructor; [exact IH|].
      eapply Permutation_Forall; [apply insert_perm|].
      constructor; [now apply key_le_total | exact Hy].
Qed.

Lemma sort_sorted l : StronglySorted (key_rel reverse) (sort_by_start reverse l).
Proof.
  induction l as [|x l IH]; simpl; [constructor | now apply insert_sorted].
Qed.

Lemma insert_stable k x l :
  filter (fun e => start e =? k) (insert_by_start reverse x l)
  = filter (fun e => start e =? k) (x :: l).
Proof.
  induction l as [|y l IH]; [reflexivity|].
  cbn [insert_by_start]. destruct (key_le reverse x y) eqn:E; [reflexivity|].
  apply key_le_false_start in E.
  cbn [filter] in *. rewrite IH.
  destruct (start x =? k) eqn:Ex, (start y =? k) eqn:Ey; try reflexivity.
  apply Z.eqb_eq in Ex, Ey. congruence.
Qed.

Lemma sort_stable k l :
  filter (fun e => start e =? k) (sort_by_start reverse l)
  = filter (fun e => start e =? k) l.
Proof.
  induction l as [|x l IH]; [reflexivity|].
  cbn [sort_by_start fold_right]. rewrite insert_stable.
  cbn [filter]. fold (sort_by_start reverse l). now rewrite IH.
Qed.

Lemma sort_sorted_id l :
  StronglySorted (key_rel reverse) l -> sort_by_start reverse l = l.
Proof.
  induction 1 as [|x l Hl IH Hx]; [reflexivity|].
  cbn [sort_by_start fold_right]. fold (sort_by_start reverse l). rewrite IH.
  destruct l as [|y l]; [reflexivity|].
  cbn [insert_by_start]. inversion Hx as [|? ? Hxy _]; subst.
  unfold key_rel in Hxy. now rewrite Hxy.
Qed.

End Sorting.

Lemma sorted_asc_iff l :
  StronglySorted (key_rel false) l
  <-> StronglySorted (fun a b => start a <= start b) l.
Proof.
  split; induction 1 as [|x l Hl IH Hx]; constructor; auto;
    (eapply Forall_impl; [|exact Hx]); intros y; unfold key_rel, key_le;
    apply Z.leb_le.
Qed.

Lemma sorted_desc_iff l :
  StronglySorted (key_rel true) l
  <-> StronglySorted (fun a b => start b <= start a) l.
Proof.
  split; induction 1 as [|x l Hl IH Hx]; constructor; auto;
    (eapply Forall_impl; [|exact Hx]); intros y; unfold key_rel, key_le;
    apply Z.leb_le.
Qed.

Lemma sort_is_stable_sort X : Spec.stable_sort_by_start X (sort_by_start false X).
Proof.
  repeat split.
  - apply sort_perm.
  - apply sorted_asc_iff, sort_sorted.
  - intros k. apply sort_stable.
Qed.

(** ** The entity fuser *)

Lemma fold_merge_step rest : forall merged current,
  (let (m, c) := fold_left merge_step rest (merged, current) in m ++ [c])
  = merged ++ scan current rest.
Proof.
  induction rest as [|e rest IH]; intros merged current; [reflexivity|].
  cbn [fold_left scan merge_step].
  destruct (overlaps current e).
  - apply IH.
  - rewrite IH, <- app_assoc. reflexivity.
Qed.

Lemma merge_scan X :
  _merge_entities X
  = match sort_by_start false X with
    | [] => []
    | first :: rest => scan first rest
    end.
Proof.
  unfold _merge_entities. destruct X as [|x X]; [reflexivity|].
  destruct (sort_by_start false (x :: X)) as [|first rest]; [reflexivity|].
  apply (fold_merge_step rest [] first).
Qed.

Lemma overlaps_ext a b b' :
  start b = start b' -> entity_group b = entity_group b' ->
  overlaps a b = overlaps a b'.
Proof. unfold overlaps. now intros -> ->. Qed.

Lemma scan_head current rest :
  exists h tl, scan current rest = h :: tl
    /\ start h = start current /\ entity_group h = entity_group current.
Proof.
  revert current. induction rest as [|e rest IH]; intros current; cbn [scan].
  - now exists current, [].
  - destruct (overlaps current e).
    + destruct (IH (absorb current e)) as (h & tl & -> & Hs & Hg).
      now exists h, tl.
    + now exists current, (scan e rest).
Qed.

Lemma scan_separated current rest : separated (scan current rest).
Proof.
  revert current. induction rest as [|e rest IH]; intros current; cbn [scan].
  - now split.
  - destruct (overlaps current e) eqn:E; [apply IH|].
    specialize (IH e). destruct (scan_head e rest) as (h & tl & Hscan & Hs & Hg).
    rewrite Hscan in *. split; [|exact IH].
    rewrite <- E. now apply overlaps_ext.
Qed.

Lemma scan_separated_id a l : separated (a :: l) -> scan a l = a :: l.
Proof.
  revert a. induction l as [|b l IH]; intros a [Hab Hl]; [reflexivity|].
  cbn [scan]. rewrite Hab. f_equal. now apply IH.
Qed.

Lemma scan_starts (P : Z -> Prop) current rest :
  Forall (fun e => P (start e)) (current :: rest) ->
  Forall (fun e => P (start e)) (scan current rest).
Proof.
  revert current. induction rest as [|e rest IH]; intros current H; cbn [scan].
  - exact H.
  - inversion H as [|? ? Hc Hr]; subst. inversion Hr as [|? ? He Hr']; subst.
    destruct (overlaps current e).
    + apply IH. now constructor.
    + constructor; [exact Hc|]. now apply IH.
Qed.

Lemma scan_sorted current rest :
  StronglySorted (fun a b => start a <= start b) (current :: rest) ->
  StronglySorted (fun a b => start a <= start b) (scan current rest).
Proof.
  revert current. induction rest as [|e rest IH]; intros current H; cbn [scan].
  - exact H.
  - inversion H as [|? ? Hs Hc]; subst.
    inversion Hs as [|? ? Hs' He]; subst.
    inversion Hc as [|? ? Hce Hcr]; subst.
    destruct (overlaps current e).
    + apply IH. now constructor.
    + constructor; [now apply IH|].
      apply (scan_starts (fun s => start current <= s)). now constructor.
Qed.

Lemma scan_length current rest :
  (List.length (scan current rest) <= S (List.length rest))%nat.
Proof.
  revert current. induction rest as [|e rest IH]; intros current; cbn [scan].
  - apply le_n.
  - destruct (overlaps current e); cbn [List.length].
    + apply le_S, IH.
    + apply le_n_S, IH.
Qed.

Lemma fmax_Qmax a b : fmax a b = Qmax a b.
Proof.
  unfold fmax, Qmax, GenericMinMax.gmax.
  destruct (Qle_bool b a) eqn:E.
  - apply Qle_bool_iff in E.
    destruct (a ?= b)%Q eqn:C; try reflexivity.
    apply Qlt_alt in C. exfalso. apply (Qlt_not_le _ _ C E).
  - destruct (a ?= b)%Q eqn:C; try reflexivity; exfalso.
    + apply Qeq_alt in C. assert (H : (b <= a)%Q) by (rewrite C; apply Qle_refl).
      apply Qle_bool_iff in H. congruence.
    + apply Qgt_alt in C. apply Qlt_le_weak in C.
      apply Qle_bool_iff in C. congruence.
Qed.

Lemma absorb_fuse current e :
  Spec.has_method current -> Spec.has_method e -> absorb current e = Spec.fuse current e.
Proof.
  unfold Spec.has_method, absorb, Spec.fuse. intros Hc He.
  rewrite fmax_Qmax.
  destruct (method current); [|congruence]. destruct (method e); [|congruence].
  reflexivity.
Qed.

Lemma scan_walk current rest :
  Forall Spec.has_method (current :: rest) -> scan current rest = Spec.walk current rest.
Proof.
  revert current. induction rest as [|e rest IH]; intros current H; [reflexivity|].
  inversion H as [|? ? Hc Hr]; subst. inversion Hr as [|? ? He Hr']; subst.
  cbn [scan Spec.walk]. unfold overlaps.
  rewrite (String.eqb_sym (entity_group e)).
  destruct ((start e <? end_ current)
            && String.eqb (entity_group current) (entity_group e)).
  - rewrite <- absorb_fuse by assumption. apply IH.
    constructor; [|assumption].
    unfold Spec.has_method, absorb in *. cbn. destruct (method e); congruence.
  - f_equal. now apply IH.
Qed.

(** A list has at most one stable sort. *)
Lemma stable_sort_unique S : forall S',
  StronglySorted (fun a b => start a <= start b) S ->
  StronglySorted (fun a b => start a <= start b) S' ->
  (forall k, filter (fun e => start e =? k) S = filter (fun e => start e =? k) S') ->
  S = S'.
Proof.
  induction S as [|x S IH]; intros S' HS HS' Hf.
  - destruct S' as [|y S']; [reflexivity|].
    specialize (Hf (start y)). cbn [filter] in Hf.
    rewrite Z.eqb_refl in Hf. discriminate.
  - destruct S' as [|y S'].
    + specialize (Hf (start x)). cbn [filter] in Hf.
      rewrite Z.eqb_refl in Hf. discriminate.
    + inversion HS as [|? ? HS1 Hx]; subst.
      inversion HS' as [|? ? HS1' Hy]; subst.
      assert (Hle : forall (a b : Entity) (A B : list Entity),
                 Forall (fun e => start a <= start e) A ->
                 filter (fun e => start e =? start b) (a :: A)
                 = filter (fun e => start e =? start b) (b :: B) ->
                 start a <= start b).
      { intros a b A B Ha H.
        assert (Hin : In b (filter (fun e => start e =? start b) (a :: A))).
        { rewrite H. apply filter_In. split; [now left | apply Z.eqb_refl]. }
        apply filter_In in Hin. destruct Hin as [[->|Hin] _]; [lia|].
        rewrite Forall_forall in Ha. now apply Ha. }
      assert (Hxy : start x = start y).
      { apply Z.le_antisymm.
        - apply (Hle x y S S' Hx), Hf.
        - apply (Hle y x S' S Hy). symmetry. apply Hf. }
      assert (Heq : x = y).
      { pose proof (Hf (start x)) as H1. cbn [filter] in H1.
        rewrite <- Hxy, Z.eqb_refl in H1. congruence. }
      subst y. f_equal. apply IH; try assumption.
      intros k. specialize (Hf k). cbn [filter] in Hf.
      destruct (start x =? k); congruence.
Qed.

Lemma stable_sort_is_sort X S :
  Spec.stable_sort_by_start X S -> S = sort_by_start false X.
Proof.
  intros (_ & Hs & Hf). apply stable_sort_unique; [exact Hs| |].
  - apply sorted_asc_iff, sort_sorted.
  - intros k. now rewrite Hf, sort_stable.
Qed.

(** C4. [_merge_entities] returns the empty list on the empty list, and on
    candidates that all carry a method it returns what the walk of the
    specification yields on the stable sort of the candidates by [start]:
    an overlapping candidate of the same category is merged into the current
    entity ([end] the larger end, [score] the larger score, [word] the one of
    the candidate examined last, [method] both methods joined by [+]), any
    other candidate closes the current entity and the last one is flushed. *)
Theorem merge_entities_follows_walk :
  _merge_entities [] = []
  /\ forall X S,
       Forall Spec.has_method X ->
       Spec.stable_sort_by_start X S ->
       _merge_entities X = Spec.merge_sorted S.
Proof.
  split; [reflexivity|].
  intros X S Hm HS.
  rewrite (stable_sort_is_sort X S HS), merge_scan.
  assert (Hm' : Forall Spec.has_method (sort_by_start false X))
    by (eapply Permutation_Forall; [apply sort_perm | exact Hm]).
  destruct (sort_by_start false X) as [|first rest]; [reflexivity|].
  now apply scan_walk.
Qed.

Lemma merge_sorted_separated X :
  StronglySorted (fun a b => start a <= start b) (_merge_entities X)
  /\ separated (_merge_entities X).
Proof.
  rewrite merge_scan.
  pose proof (sort_sorted false X) as Hs. apply sorted_asc_iff in Hs.
  destruct (sort_by_start false X) as [|first rest].
  - split; [constructor | exact I].
  - split; [now apply scan_sorted | apply scan_separated].
Qed.

(** C8. Merging is idempotent: merging the output of a merge returns it
    unchanged. *)
Theorem merge_entities_idempotent X :
  _merge_entities (_merge_entities X) = _merge_entities X.
Proof.
  destruct (merge_sorted_separated X) as [Hs Hsep].
  rewrite (merge_scan (_merge_entities X)).
  rewrite sort_sorted_id by now apply sorted_asc_iff.
  destruct (_merge_entities X) as [|a l]; [reflexivity|].
  now apply scan_separated_id.
Qed.

(** C10. The list returned by [_merge_entities] is in non-decreasing order
    of [start], and it is not longer than the input list. *)
Theorem merge_entities_sorted_and_bounded X :
  StronglySorted (fun a b => start a <= start b) (_merge_entities X)
  /\ (List.length (_merge_entities X) <= List.length X)%nat.
Proof.
  split; [apply merge_sorted_separated|].
  rewrite merge_scan, <- (sort_length false X).
  destruct (sort_by_start false X) as [|first rest]; [apply le_n|].
  apply scan_length.
Qed.

(** ** Slices at indices inside the list *)

Section Slices.

Context {A : Type}.
Implicit Types l p q : list A.

Lemma len_app p q : len (p ++ q) = len p + len q.
Proof. unfold len. rewrite length_app. lia. Qed.

Lemma len_nonneg l : 0 <= len l.
Proof. unfold len. lia. Qed.

Lemma slice_index_inside n i : 0 <= i <= n -> slice_index n i = i.
Proof.
  intros H. unfold slice_index.
  destruct (Z.ltb_spec i 0); lia.
Qed.

Lemma slice_to_inside l s :
  0 <= s <= len l -> slice_to l s = firstn (Z.to_nat s) l.
Proof. intros H. unfold slice_to. now rewrite slice_index_inside. Qed.

Lemma slice_from_inside l e :
  0 <= e <= len l -> slice_from l e = skipn (Z.to_nat e) l.
Proof. intros H. unfold slice_from. now rewrite slice_index_inside. Qed.

Lemma slice_inside l s e :
  0 <= s <= len l -> 0 <= e <= len l ->
  slice l s e = firstn (Z.to_nat (e - s)) (skipn (Z.to_nat s) l).
Proof. intros Hs He. unfold slice. now rewrite !slice_index_inside. Qed.

Lemma len_slice_to l s : 0 <= s <= len l -> len (slice_to l s) = s.
Proof.
  intros H. rewrite slice_to_inside by exact H.
  unfold len in *. rewrite length_firstn. lia.
Qed.

Lemma len_slice_from l e : 0 <= e <= len l -> len (slice_from l e) = len l - e.
Proof.
  intros H. rewrite slice_from_inside by exact H.
  unfold len in *. rewrite length_skipn. lia.
Qed.

Lemma slice_from_0 l : slice_from l 0 = l.
Proof.
  rewrite slice_from_inside by (pose proof (len_nonneg l); lia). reflexivity.
Qed.

Lemma slice_to_app p q s : 0 <= s <= len p -> slice_to (p ++ q) s = slice_to p s.
Proof.
  intros H. pose proof (len_nonneg q).
  rewrite !slice_to_inside by (rewrite ?len_app; lia).
  rewrite firstn_app.
  replace (Z.to_nat s - List.length p)%nat with 0%nat by (unfold len in H; lia).
  now rewrite firstn_0, app_nil_r.
Qed.

Lemma slice_from_app p q e :
  0 <= e <= len p -> slice_from (p ++ q) e = slice_from p e ++ q.
Proof.
  intros H. pose proof (len_nonneg q).
  rewrite !slice_from_inside by (rewrite ?len_app; lia).
  rewrite skipn_app.
  replace (Z.to_nat e - List.length p)%nat with 0%nat by (unfold len in H; lia).
  reflexivity.
Qed.

Lemma slice_of_slice_to l m a b :
  0 <= a <= m -> 0 <= b <= m -> m <= len l ->
  slice (slice_to l m) a b = slice l a b.
Proof.
  intros Ha Hb Hm.
  assert (Hlen : len (slice_to l m) = m) by (apply len_slice_to; lia).
  rewrite !slice_inside by lia.
  rewrite slice_to_inside by lia.
  rewrite skipn_firstn_comm, firstn_firstn. f_equal. lia.
Qed.

Lemma slice_from_slice_to l m a :
  0 <= a <= m -> m <= len l -> slice_from (slice_to l m) a = slice l a m.
Proof.
  intros Ha Hm.
  assert (Hlen : len (slice_to l m) = m) by (apply len_slice_to; lia).
  rewrite slice_from_inside, slice_inside, slice_to_inside by lia.
  rewrite skipn_firstn_comm. f_equal. lia.
Qed.

End Slices.

(** ** The anonymizer *)

Section Anonymizer.

Variable R : text.

Import Spec.

Lemma splice_app p q e :
  span_within (len p) e -> splice R (p ++ q) e = splice R p e ++ q.
Proof.
  intros [Hs He]. unfold splice.
  rewrite slice_to_app, slice_from_app by lia.
  now rewrite <- !app_assoc.
Qed.

Lemma len_splice t e :
  span_within (len t) e ->
  len (splice R t e) = len t - (end_ e - start e) + len R.
Proof.
  intros [Hs He]. unfold splice.
  rewrite !len_app, len_slice_to, len_slice_from by lia. lia.
Qed.

Lemma span_within_splice p d b :
  span_within (len p) d -> span_within (len p) b -> end_ b <= start d ->
  span_within (len (splice R p d)) b.
Proof.
  intros Hd [Hb1 Hb2] Hbd. rewrite len_splice by exact Hd.
  pose proof (len_nonneg R). destruct Hd. split; lia.
Qed.

Lemma fold_prefix D : forall p q,
  Forall (span_within (len p)) D -> right_to_left D ->
  fold_left (splice R) D (p ++ q) = fold_left (splice R) D p ++ q.
Proof.
  induction D as [|d D IH]; intros p q Hv Hc; [reflexivity|].
  inversion Hv as [|? ? Hd HD]; subst. inversion Hc as [|? ? Hc' Hd']; subst.
  cbn [fold_left]. rewrite splice_app by exact Hd.
  apply IH; [|exact Hc'].
  rewrite Forall_forall in *. intros b Hb.
  apply span_within_splice; auto.
Qed.

Lemma fold_peel d D t :
  Forall (span_within (len t)) (d :: D) -> right_to_left (d :: D) ->
  fold_left (splice R) (d :: D) t
  = fold_left (splice R) D (slice_to t (start d)) ++ R ++ slice_from t (end_ d)
    /\ Forall (span_within (len (slice_to t (start d)))) D.
Proof.
  intros Hv Hc.
  inversion Hv as [|? ? Hd HD]; subst. inversion Hc as [|? ? Hc' Hd']; subst.
  assert (HD' : Forall (span_within (len (slice_to t (start d)))) D).
  { destruct Hd as [Hd1 Hd2]. rewrite len_slice_to by lia.
    rewrite Forall_forall in *. intros b Hb.
    destruct (HD b Hb). specialize (Hd' b Hb). split; lia. }
  split; [|exact HD'].
  cbn [fold_left]. unfold splice at 2. now apply fold_prefix.
Qed.

Lemma stitch_snoc t d S : forall pos,
  0 <= pos <= start d -> start d <= len t ->
  Forall (fun e => 0 <= start e <= start d /\ 0 <= end_ e <= start d) S ->
  stitch t R pos (S ++ [d])
  = stitch (slice_to t (start d)) R pos S ++ R ++ slice_from t (end_ d).
Proof.
  induction S as [|e S IH]; intros pos Hpos Hd HS; cbn [app stitch].
  - now rewrite slice_from_slice_to by lia.
  - inversion HS as [|? ? He HS']; subst.
    rewrite IH by (assumption || lia).
    rewrite slice_of_slice_to by lia.
    now rewrite <- ?app_assoc.
Qed.

Lemma fold_stitch D : forall t,
  Forall (valid_span t) D -> right_to_left D ->
  fold_left (splice R) D t = stitch t R 0 (rev D).
Proof.
  induction D as [|d D IH]; intros t Hv Hc.
  - cbn. now rewrite slice_from_0.
  - destruct (fold_peel d D t Hv Hc) as [-> HD].
    inversion Hv as [|? ? Hd Hv']; subst. inversion Hc as [|? ? Hc' Hd']; subst.
    destruct Hd as [Hd1 Hd2].
    rewrite IH by assumption.
    cbn [rev]. rewrite stitch_snoc; [reflexivity|lia|lia|].
    apply Forall_rev. rewrite Forall_forall in *. intros b Hb.
    destruct (Hv' b Hb). specialize (Hd' b Hb). lia.
Qed.

Lemma fold_len D : forall t,
  Forall (valid_span t) D -> right_to_left D ->
  len (fold_left (splice R) D t) = len t - span_total D + len D * len R.
Proof.
  induction D as [|d D IH]; intros t Hv Hc.
  - cbn. unfold len. cbn. lia.
  - destruct (fold_peel d D t Hv Hc) as [-> HD].
    inversion Hv as [|? ? Hd Hv']; subst. inversion Hc as [|? ? Hc' Hd']; subst.
    destruct Hd as [Hd1 Hd2].
    rewrite !len_app, IH by assumption.
    rewrite len_slice_to, len_slice_from by lia.
    cbn [span_total fold_right]. fold (span_total D).
    unfold len. cbn [List.length]. lia.
Qed.

End Anonymizer.

Lemma non_overlapping_perm X Y :
  Permutation X Y -> Spec.non_overlapping X -> Spec.non_overlapping Y.
Proof.
  unfold Spec.non_overlapping.
  induction 1 as [|x l l' Hp IH|x y l|l l' l'' _ IH1 _ IH2]; intros H.
  - exact H.
  - inversion H as [|? ? Hx Hl]; subst. constructor; [|now apply IH].
    eapply Permutation_Forall; eauto.
  - inversion H as [|? ? Hy Hxl]; subst. inversion Hxl as [|? ? Hx Hl]; subst.
    inversion Hy as [|? ? Hyx Hyl]; subst.
    constructor; [|now constructor].
    constructor; [|exact Hx].
    unfold Spec.disjoint in *. tauto.
  - auto.
Qed.

Lemma sorted_disjoint_right_to_left D :
  Spec.non_overlapping D ->
  StronglySorted (fun a b => start b <= start a) D ->
  Forall (fun e => start e < end_ e) D ->
  Spec.right_to_left D.
Proof.
  unfold Spec.right_to_left.
  induction D as [|d D IH]; intros Hn Hs Hv; [constructor|].
  inversion Hn as [|? ? Hd Hn']; subst. inversion Hs as [|? ? Hs' Hd']; subst.
  inversion Hv as [|? ? Hvd Hv']; subst.
  constructor; [now apply IH|].
  rewrite Forall_forall in *. intros b Hb.
  destruct (Hd b Hb) as [H|H]; [|exact H].
  specialize (Hd' b Hb). specialize (Hv' b Hb). lia.
Qed.

Lemma descending_sort_right_to_left t X :
  Forall (Spec.valid_span t) X -> Spec.non_overlapping X ->
  Forall (Spec.valid_span t) (sort_by_start true X)
  /\ Spec.right_to_left (sort_by_start true X).
Proof.
  intros Hv Hn.
  assert (Hv' : Forall (Spec.valid_span t) (sort_by_start true X))
    by (eapply Permutation_Forall; [apply sort_perm | exact Hv]).
  split; [exact Hv'|].
  apply sorted_disjoint_right_to_left.
  - eapply non_overlapping_perm; [apply sort_perm | exact Hn].
  - apply sorted_desc_iff, sort_sorted.
  - eapply Forall_impl; [|exact Hv']. intros e [He _]. lia.
Qed.

Lemma StronglySorted_snoc {A} (Rel : A -> A -> Prop) l x :
  StronglySorted Rel l -> Forall (fun y => Rel y x) l ->
  StronglySorted Rel (l ++ [x]).
Proof.
  induction 1 as [|y l Hl IH Hy]; intros Hx; cbn.
  - repeat constructor.
  - inversion Hx as [|? ? Hyx Hx']; subst.
    constructor; [now apply IH|].
    apply Forall_app. split; [exact Hy | now constructor].
Qed.

Lemma StronglySorted_rev {A} (Rel : A -> A -> Prop) l :
  StronglySorted Rel l -> StronglySorted (fun a b => Rel b a) (rev l).
Proof.
  induction 1 as [|x l Hl IH Hx]; cbn; [constructor|].
  apply StronglySorted_snoc; [exact IH | now apply Forall_rev].
Qed.

(** A list of pairwise distinct keys has one ascending arrangement. *)
Lemma ascending_unique S : forall S',
  StronglySorted (fun a b => start a < start b) S ->
  StronglySorted (fun a b => start a <= start b) S' ->
  Permutation S S' -> S = S'.
Proof.
  induction S as [|x S IH]; intros S' HS HS' Hp.
  - apply Permutation_nil in Hp. now subst.
  - destruct S' as [|y S'].
    + apply Permutation_sym, Permutation_nil in Hp. discriminate.
    + inversion HS as [|? ? HS1 Hx]; subst.
      inversion HS' as [|? ? HS1' Hy]; subst.
      rewrite Forall_forall in Hx, Hy.
      assert (Heq : x = y).
      { assert (Hix : In x (y :: S'))
          by (eapply Permutation_in; [exact Hp | now left]).
        assert (Hiy : In y (x :: S))
          by (eapply Permutation_in;
              [apply Permutation_sym; exact Hp | now left]).
        destruct Hix as [->|Hix]; [reflexivity|].
        destruct Hiy as [->|Hiy]; [reflexivity|].
        specialize (Hx y Hiy). specialize (Hy x Hix). lia. }
      subst y. f_equal. apply IH; try assumption.
      now apply Permutation_cons_inv in Hp.
Qed.

Lemma right_to_left_rev_ascending t D :
  Forall (Spec.valid_span t) D -> Spec.right_to_left D ->
  StronglySorted (fun a b => start a < start b) (rev D).
Proof.
  intros Hv Hc. apply (StronglySorted_rev (fun a b => start b < start a)).
  unfold Spec.right_to_left in Hc.
  induction Hc as [|d D Hc IH Hd]; [constructor|].
  inversion Hv as [|? ? Hvd Hv']; subst.
  constructor; [now apply IH|].
  rewrite Forall_forall in *. intros b Hb.
  specialize (Hd b Hb). destruct (Hv' b Hb) as [Hb1 _]. lia.
Qed.

Lemma span_total_perm X Y :
  Permutation X Y -> Spec.span_total X = Spec.span_total Y.
Proof.
  unfold Spec.span_total.
  induction 1; cbn; lia.
Qed.


(** C7. For entities with valid spans that do not overlap pairwise, the
    length of the anonymized text is the length of the text, minus the sum
    of [end - start] over the entities, plus the number of entities times
    the length of the replacement. *)
Theorem anonymize_length (t R : text) (X : list Entity) :
  Forall (Spec.valid_span t) X -> Spec.non_overlapping X ->
  len (_anonymize t X R) = len t - Spec.span_total X + len X * len R.
Proof.
  intros Hv Hn.
  destruct (descending_sort_right_to_left t X Hv Hn) as [Hv' Hc].
  pose proof (fold_len R _ t Hv' Hc) as H.
  rewrite <- (span_total_perm _ _ (sort_perm true X)) in H.
  replace (len (sort_by_start true X)) with (len X) in H
    by (unfold len; now rewrite sort_length).
  destruct X as [|x X]; [|exact H].
  cbn. unfold len. cbn. lia.
Qed.

(** ** The schema validator *)

Section Find.

Context {A B : Type}.

Lemma find_app (f : A -> bool) l1 l2 :
  find f (l1 ++ l2)
  = match find f l1 with Some x => Some x | None => find f l2 end.
Proof.
  induction l1 as [|x l1 IH]; cbn; [reflexivity|].
  now destruct (f x).
Qed.

Lemma find_filter (f g : A -> bool) l :
  find f (filter g l) = find (fun x => g x && f x) l.
Proof.
  induction l as [|x l IH]; cbn; [reflexivity|].
  destruct (g x); cbn; [|exact IH]. now destruct (f x).
Qed.

Lemma find_ext_in (f g : A -> bool) l :
  (forall x, In x l -> f x = g x) -> find f l = find g l.
Proof.
  induction l as [|x l IH]; intros H; cbn; [reflexivity|].
  rewrite (H x) by now left. destruct (g x); [reflexivity|].
  apply IH. intros y Hy. apply H. now right.
Qed.

Lemma find_map (f : B -> bool) (h : A -> B) l :
  find f (map h l) = option_map h (find (fun x => f (h x)) l).
Proof.
  induction l as [|x l IH]; cbn; [reflexivity|].
  now destruct (f (h x)).
Qed.

End Find.

Lemma lookup_in (patterns : Patterns) c op :
  NoDup (categories patterns) -> In (c, op) patterns ->
  lookup patterns c = Some op.
Proof.
  unfold categories.
  induction patterns as [|[c' op'] l IH]; intros Hnd Hin; [contradiction|].
  cbn in Hnd. inversion Hnd as [|? ? Hc' Hnd']; subst.
  cbn [lookup]. destruct (String.eqb_spec c' c) as [->|Hne].
  - destruct Hin as [Heq|Hin]; [congruence|].
    exfalso. apply Hc'. apply (in_map fst) in Hin. exact Hin.
  - destruct Hin as [Heq|Hin]; [congruence|]. now apply IH.
Qed.

Lemma mem_In c l : Spec.mem c l = true <-> In c l.
Proof.
  unfold Spec.mem. rewrite existsb_exists. split.
  - intros (x & Hx & E). apply String.eqb_eq in E. now subst.
  - intros H. exists c. split; [exact H | apply String.eqb_refl].
Qed.

(** The two loops of [validate_entity] find the first match of the order
    of the amended specification. *)
Lemma cross_loops patterns category p t :
  NoDup (categories patterns) ->
  lookup patterns category = Some (Some p) ->
  re_match p t = false ->
  Spec.cross_validate true patterns category t
  = match find (Main.specific_hit patterns t) Main.specific_categories with
    | Some other => Some other
    | None => option_map fst (find (Main.other_hit t) patterns)
    end.
Proof.
  intros Hnd Hl Hm. unfold Spec.cross_validate, Spec.cross_order.
  rewrite find_app, !find_filter.
  assert (Hcat : Spec.matches patterns t category = false)
    by (unfold Spec.matches; now rewrite Hl).
  replace (find (fun x => negb (String.eqb x category)
                          && Spec.matches patterns t x)
             Main.specific_categories)
    with (find (Main.specific_hit patterns t) Main.specific_categories).
  2:{ apply find_ext_in. intros c _.
      change (Main.specific_hit patterns t c) with (Spec.matches patterns t c).
      destruct (String.eqb_spec c category) as [->|]; [now rewrite Hcat|].
      reflexivity. }
  destruct (find (Main.specific_hit patterns t) Main.specific_categories)
    as [other|] eqn:F1; [reflexivity|].
  unfold categories. rewrite find_map. f_equal.
  apply find_ext_in. intros [c op] Hin. cbn [fst].
  pose proof (lookup_in patterns c op Hnd Hin) as Hc.
  unfold Main.other_hit, Spec.wildcard, Spec.matches. rewrite Hc.
  destruct (String.eqb_spec c category) as [->|Hne].
  - rewrite Hl in Hc. injection Hc as <-. rewrite Hm.
    cbn. now rewrite !andb_false_r.
  - destruct (Spec.mem c Main.specific_categories) eqn:Em.
    + apply mem_In in Em.
      pose proof (find_none _ _ F1 c Em) as Hs.
      unfold Main.specific_hit in Hs. rewrite Hc in Hs.
      destruct op as [q|]; [|now destruct (String.eqb c "STREET")].
      rewrite Hs. cbn. now rewrite !andb_false_r.
    + cbn. destruct op as [q|]; cbn.
      * destruct (String.eqb c "STREET"), (String.eqb (pattern q) ".*");
          reflexivity.
      * now destruct (String.eqb c "STREET").
Qed.

(** C1, amended.  For a known category whose pattern compiled,
    [validate_entity] of [main.py] accepts the text under that category when
    the category's pattern matches it from the start.  Otherwise it tries
    the other categories: the prioritized list first, then the remaining
    categories in table order, leaving out of this second part the category
    named [STREET], whatever its pattern, and every category whose pattern
    source is [.*].  The first category whose pattern matches gives a valid
    verdict corrected to that category, a category other than the original
    one, which is kept as [original_category]; when none matches the verdict
    is invalid.  [validate_entity] of [validated_enhanced_main.py] has no
    cross-validation: its verdict is valid exactly when the category's own
    pattern matches, and it carries no corrected category. *)
Theorem validate_entity_cross_validation
  (patterns : Patterns) (category : string) (p : Pattern) (t : text) (c : Q) :
  NoDup (categories patterns) ->
  lookup patterns category = Some (Some p) ->
  let v := Main.validate_entity patterns category t c in
  let w := ValidatedEnhanced.validate_entity patterns category t c in
  (if re_match p t then
     valid v = true /\ corrected_category v = Some category
   else
     match Spec.cross_validate true patterns category t with
     | Some other =>
         valid v = true /\ corrected_category v = Some other
         /\ original_category v = Some category /\ other <> category
     | None => valid v = false
     end)
  /\ valid w = re_match p t
  /\ corrected_category w = None /\ original_category w = None.
Proof.
  intros Hnd Hl v w. subst v w.
  unfold Main.validate_entity, ValidatedEnhanced.validate_entity. rewrite Hl.
  split; [|now destruct (re_match p t)].
  destruct (re_match p t) eqn:Hm; [now split|].
  rewrite (cross_loops patterns category p t Hnd Hl Hm).
  destruct (find (Main.specific_hit patterns t) Main.specific_categories)
    as [other|] eqn:F1.
  - repeat split. intros ->.
    apply find_some in F1. destruct F1 as [_ F1].
    unfold Main.specific_hit in F1. rewrite Hl in F1. congruence.
  - destruct (find (Main.other_hit t) patterns) as [[other op]|] eqn:F2;
      cbn [option_map fst]; [|reflexivity].
    repeat split. intros ->.
    apply find_some in F2. destruct F2 as [Hin F2].
    rewrite (lookup_in patterns category op Hnd Hin) in Hl.
    injection Hl as ->. unfold Main.other_hit in F2. rewrite Hm in F2.
    now rewrite !andb_false_r in F2.
Qed.

(** The table of the counterexample: two categories with patterns free of
    metacharacters. *)
Example street_table_run :
  Spec.matches street_table (str "MG Road") "STREET" = true
  /\ Spec.wildcard street_table "STREET" = false
  /\ valid (Main.validate_entity street_table "CITY" (str "MG Road") (9 # 10))
     = false.
Proof. repeat split. Qed.

Example strict_validator_run :
  Spec.matches phone_table (str "9876543210") "TELEPHONENUM" = true
  /\ valid (ValidatedEnhanced.validate_entity phone_table "AADHAAR"
              (str "9876543210") (1 # 1))
     = false
  /\ valid (Main.validate_entity phone_table "AADHAAR"
              (str "9876543210") (1 # 1))
     = true.
Proof. repeat split. Qed.

Lemma street_table_nodup : NoDup (categories street_table).
Proof. cbn. repeat constructor; cbn; intuition discriminate. Qed.

Lemma phone_table_nodup : NoDup (categories phone_table).
Proof. cbn. repeat constructor; cbn; intuition discriminate. Qed.

(** C1 as stated fails, in two ways.  In [main.py], with the second part of
    the order excluding only the categories whose pattern is the universal
    wildcard, a [STREET] category with another pattern would be tried, and
    it is not.  In [validated_enhanced_main.py] no other category is tried
    at all. *)
Lemma cross_validation_as_stated_fails :
  ~ (forall (patterns : Patterns) (category : string) (p : Pattern)
            (t : text) (c : Q),
        NoDup (categories patterns) ->
        lookup patterns category = Some (Some p) ->
        let v := Main.validate_entity patterns category t c in
        if re_match p t then
          valid v = true /\ corrected_category v = Some category
        else
          match Spec.cross_validate false patterns category t with
          | Some other =>
              valid v = true /\ corrected_category v = Some other
              /\ original_category v = Some category
          | None => valid v = false
          end)
  /\ ~ (forall (patterns : Patterns) (category : string) (p : Pattern)
               (t : text) (c : Q),
           NoDup (categories patterns) ->
           lookup patterns category = Some (Some p) ->
           let w := ValidatedEnhanced.validate_entity patterns category t c in
           if re_match p t then
             valid w = true /\ corrected_category w = Some category
           else
             match Spec.cross_validate false patterns category t with
             | Some other =>
                 valid w = true /\ corrected_category w = Some other
                 /\ original_category w = Some category
             | None => valid w = false
             end).
Proof.
  split; intros H.
  - specialize (H street_table "CITY" (literal "Pune") (str "MG Road")
                  (9 # 10)%Q street_table_nodup eq_refl).
    vm_compute in H. destruct H as [H _]. discriminate.
  - specialize (H phone_table "AADHAAR" (literal "1234 5678 9012")
                  (str "9876543210") (1 # 1)%Q phone_table_nodup eq_refl).
    vm_compute in H. destruct H as [H _]. discriminate.
Qed.

Lemma validate_entity_cross_validation_witness :
  let v := Main.validate_entity phone_table "AADHAAR" (str "9876543210") (1 # 1) in
  let w := ValidatedEnhanced.validate_entity phone_table "AADHAAR"
             (str "9876543210") (1 # 1) in
  (valid v = true /\ corrected_category v = Some "TELEPHONENUM"
   /\ original_category v = Some "AADHAAR" /\ "TELEPHONENUM" <> "AADHAAR")
  /\ valid w = false
  /\ corrected_category w = None /\ original_category w = None.
Proof.
  exact (validate_entity_cross_validation phone_table "AADHAAR"
           (literal "1234 5678 9012") (str "9876543210") (1 # 1)%Q
           phone_table_nodup eq_refl).
Defined.

(** C9. The [valid] flag of a verdict does not depend on the confidence,
    and the verdict carries the confidence it was given; in [main.py] and in
    [validated_enhanced_main.py]. *)
Theorem validate_entity_confidence_neutral
  (patterns : Patterns) (category : string) (t : text) (c1 c2 : Q) :
  valid (Main.validate_entity patterns category t c1)
  = valid (Main.validate_entity patterns category t c2)
  /\ confidence (Main.validate_entity patterns category t c1) = c1
  /\ valid (ValidatedEnhanced.validate_entity patterns category t c1)
     = valid (ValidatedEnhanced.validate_entity patterns category t c2)
  /\ confidence (ValidatedEnhanced.validate_entity patterns category t c1) = c1.
Proof.
  unfold Main.validate_entity, ValidatedEnhanced.validate_entity.
  destruct (lookup patterns category) as [[p|]|]; [|now repeat split..].
  destruct (re_match p t); [now repeat split|].
  destruct (find (Main.specific_hit patterns t) Main.specific_categories);
    [now repeat split|].
  destruct (find (Main.other_hit t) patterns) as [[other op]|];
    now repeat split.
Qed.

(** ** The validation loop *)

Lemma filter_partition_perm {A} (f : A -> bool) l :
  Permutation l (filter f l ++ filter (fun x => negb (f x)) l).
Proof.
  induction l as [|x l IH]; cbn; [constructor|].
  destruct (f x); cbn.
  - now apply perm_skip.
  - now apply Permutation_cons_app.
Qed.

Lemma validated_loop vp min_confidence entities : forall vs fs,
  let verdict e :=
    ValidatedEnhanced.validate_entity vp (entity_group e) (word e) (score e) in
  fold_left (ValidatedEnhanced.validate_step vp min_confidence) entities (vs, fs)
  = (vs ++ map (Spec.kept verdict)
             (filter (Spec.accepted verdict min_confidence) entities),
     fs ++ map (Spec.dropped verdict)
             (filter (fun e => negb (Spec.accepted verdict min_confidence e))
                     entities)).
Proof.
  induction entities as [|e l IH]; intros vs fs verdict.
  - cbn. now rewrite !app_nil_r.
  - cbn [fold_left filter].
    assert (Hstep :
      ValidatedEnhanced.validate_step vp min_confidence (vs, fs) e
      = if Spec.accepted verdict min_confidence e
        then (vs ++ [Spec.kept verdict e], fs)
        else (vs, fs ++ [Spec.dropped verdict e])) by reflexivity.
    rewrite Hstep.
    destruct (Spec.accepted verdict min_confidence e);
      cbn [negb map]; rewrite IH; fold verdict;
      now rewrite <- ?app_assoc.
Qed.

Lemma main_loop patterns min_confidence entities : forall vs fs,
  let verdict e :=
    Main.validate_entity patterns (entity_group e) (word e) (score e) in
  fold_left (Main.validate_step patterns min_confidence) entities (vs, fs)
  = (vs ++ map (Spec.relabelled verdict)
             (filter (Spec.accepted verdict min_confidence) entities),
     fs ++ map (Spec.dropped verdict)
             (filter (fun e => negb (Spec.accepted verdict min_confidence e))
                     entities)).
Proof.
  induction entities as [|e l IH]; intros vs fs verdict.
  - cbn. now rewrite !app_nil_r.
  - cbn [fold_left filter].
    assert (Hstep :
      Main.validate_step patterns min_confidence (vs, fs) e
      = if Spec.accepted verdict min_confidence e
        then (vs ++ [Spec.relabelled verdict e], fs)
        else (vs, fs ++ [Spec.dropped verdict e])).
    { unfold Main.validate_step, Spec.accepted, Spec.relabelled, Spec.kept,
        ge_conf. fold (verdict e).
      destruct (valid (verdict e) && Qle_bool min_confidence (score e));
        [|reflexivity].
      now destruct (corrected_category (verdict e)). }
    rewrite Hstep.
    destruct (Spec.accepted verdict min_confidence e);
      cbn [negb map]; rewrite IH; fold verdict;
      now rewrite <- ?app_assoc.
Qed.

Lemma ml_entities_blank use_ml pipe t :
  blank t = true -> Main.ml_entities use_ml pipe t = [].
Proof.
  intros Hb. unfold Main.ml_entities, Main._predict. rewrite Hb.
  now destruct use_ml, pipe.
Qed.

(** C3. The validation loop places every candidate in exactly one of the
    two output lists: among the valid entities, with status [VALID], exactly
    when its verdict is valid and its confidence is at least
    [min_confidence]; otherwise among the filtered entities, with status
    [FILTERED] and the verdict's reason as [filter_reason]; both lists keep
    the order of the candidates.  This holds for [detect_comprehensive] and
    for the loop of [validated_detect_pii] in [main.py], where a valid
    entity moreover takes the corrected category. *)
Theorem validation_partitions_candidates
  (vp rp : Patterns) (finditer : Pattern -> text -> list Match)
  (re_finditer : string -> text -> list Match)
  (_bert_pipe _llama_pipe : option Pipe) (use_ml : bool)
  (t : text) (min_confidence : Q) :
  let candidates :=
    ValidatedEnhanced.detect_with_regex rp finditer t
    ++ ValidatedEnhanced.detect_contextual_pii re_finditer t in
  let verdict e :=
    ValidatedEnhanced.validate_entity vp (entity_group e) (word e) (score e) in
  let ok := Spec.accepted verdict min_confidence in
  let ml_candidates :=
    Main.ml_entities use_ml _bert_pipe t ++ Main.ml_entities use_ml _llama_pipe t in
  let ml_verdict e :=
    Main.validate_entity vp (entity_group e) (word e) (score e) in
  let ml_ok := Spec.accepted ml_verdict min_confidence in
  ValidatedEnhanced.detect_comprehensive vp rp finditer re_finditer t
    min_confidence
  = (map (Spec.kept verdict) (filter ok candidates),
     map (Spec.dropped verdict) (filter (fun e => negb (ok e)) candidates))
  /\ Permutation candidates
       (filter ok candidates ++ filter (fun e => negb (ok e)) candidates)
  /\ (forall e, ok e = true
                <-> valid (verdict e) = true /\ (min_confidence <= score e)%Q)
  /\ Main.validated_detect_pii vp _bert_pipe _llama_pipe t use_ml min_confidence
     = (map (Spec.relabelled ml_verdict) (filter ml_ok ml_candidates),
        map (Spec.dropped ml_verdict)
            (filter (fun e => negb (ml_ok e)) ml_candidates))
  /\ (forall e, ml_ok e = true
                <-> valid (ml_verdict e) = true
                    /\ (min_confidence <= score e)%Q).
Proof.
  intros candidates verdict ok ml_candidates ml_verdict ml_ok.
  assert (Hiff : forall (vd : Entity -> Verdict) e,
             Spec.accepted vd min_confidence e = true
             <-> valid (vd e) = true /\ (min_confidence <= score e)%Q).
  { intros vd e. unfold Spec.accepted.
    now rewrite andb_true_iff, Qle_bool_iff. }
  split; [|split; [|split; [|split]]]; try apply Hiff.
  - unfold ValidatedEnhanced.detect_comprehensive.
    apply (validated_loop vp min_confidence candidates [] []).
  - apply filter_partition_perm.
  - unfold Main.validated_detect_pii. fold ml_candidates.
    destruct (blank t) eqn:Hb.
    + assert (Hnil : ml_candidates = []).
      { unfold ml_candidates. now rewrite !ml_entities_blank by exact Hb. }
      now rewrite Hnil.
    + apply (main_loop vp min_confidence ml_candidates [] []).
Qed.

(** ** The classifier adapter *)

Lemma enhanced_predict_value pipe t :
  Enhanced._predict pipe t
  = if blank t then []
    else match infer true pipe t with
         | Ok normalized_results => normalized_results
         | Raise _ => []
         end.
Proof.
  unfold Enhanced._predict, Enhanced._predict_run.
  destruct (blank t); [reflexivity|]. now destruct (infer true pipe t).
Qed.

Lemma normalize_ok wm t r e :
  normalize wm t r = Ok e ->
  word e = slice t (start e) (end_ e) /\ offsets r = Ok (start e, end_ e).
Proof.
  unfold normalize, offsets, bind.
  destruct (get_coerced py_int (r_start r) 0) as [s|]; [|discriminate].
  destruct (get_coerced py_int (r_end r) 0) as [n|]; [|discriminate].
  destruct (get_coerced py_float (r_score r) (0 # 1)%Q); [|discriminate].
  intros [= <-]. now split.
Qed.

Lemma normalize_offsets_raise wm t r x :
  offsets r = Raise x -> normalize wm t r = Raise x.
Proof.
  unfold normalize, offsets, bind.
  destruct (get_coerced py_int (r_start r) 0) as [s|]; [|now intros [= ->]].
  destruct (get_coerced py_int (r_end r) 0) as [n|]; now intros [= ->].
Qed.

Lemma normalize_results_in wm t results : forall acc l e,
  normalize_results wm t results acc = Ok l -> In e l ->
  In e acc \/ exists r, In r results /\ normalize wm t r = Ok e.
Proof.
  induction results as [|r rest IH]; intros acc l e H Hin; cbn in H.
  - injection H as <-. now left.
  - destruct (normalize wm t r) as [e'|x] eqn:E.
    + destruct (IH _ _ _ H Hin) as [Ha|(r' & Hr' & Hn)].
      * apply in_app_or in Ha. destruct Ha as [Ha|[<-|[]]]; [now left|].
        right. exists r. split; [now left | exact E].
      * right. exists r'. split; [now right | exact Hn].
    + assert (Hrest : normalize_results wm t rest acc = Ok l)
        by (destruct x; (exact H || discriminate)).
      destruct (IH _ _ _ Hrest Hin) as [Ha|(r' & Hr' & Hn)]; [now left|].
      right. exists r'. split; [now right | exact Hn].
Qed.

Lemma normalize_results_skip wm t r x before : forall after acc,
  normalize wm t r = Raise x -> per_result x = true ->
  normalize_results wm t (before ++ r :: after) acc
  = normalize_results wm t (before ++ after) acc.
Proof.
  induction before as [|b before IH]; intros after acc Hr Hx; cbn.
  - rewrite Hr. destruct x; (reflexivity || discriminate).
  - destruct (normalize wm t b) as [e|y]; [now apply IH|].
    destruct y; try reflexivity; now apply IH.
Qed.

Lemma infer_in wm pipe t l e :
  infer wm pipe t = Ok l -> In e l ->
  word e = slice t (start e) (end_ e)
  /\ exists results r,
       pipe t = Ok results /\ In r results
       /\ offsets r = Ok (start e, end_ e).
Proof.
  unfold infer, bind. destruct (pipe t) as [results|] eqn:Hp; [|discriminate].
  intros H Hin.
  destruct (normalize_results_in _ _ _ _ _ _ H Hin) as [[]|(r & Hr & Hn)].
  apply normalize_ok in Hn. destruct Hn as [Hw Ho].
  split; [exact Hw|]. now exists results, r.
Qed.

(** C5, amended.  For every entity emitted by the ML adapter, the recorded
    [word] is [text[start:end]] on the original text, and [start] and [end]
    are the offsets the classifier reported, coerced to integers (0 for an
    absent or [None] offset), with no range check: the entity satisfies
    [0 <= start < end <= len(text)] when the reported offsets do.  For every
    entity emitted by the regex and contextual detectors, the bounds and the
    slice equation hold when the matches of the regex engine are non-empty
    spans of the text. *)
Theorem emitted_spans (t : text) :
  (forall pipe e,
     In e (Enhanced._predict pipe t) ->
     word e = slice t (start e) (end_ e)
     /\ (Spec.valid_span t e -> Spec.span_ok t e)
     /\ exists results r,
          pipe t = Ok results /\ In r results
          /\ offsets r = Ok (start e, end_ e))
  /\ (forall pipe l e,
        Main._predict pipe t = Ok l -> In e l ->
        word e = slice t (start e) (end_ e)
        /\ (Spec.valid_span t e -> Spec.span_ok t e)
        /\ exists results r,
             pipe t = Ok results /\ In r results
             /\ offsets r = Ok (start e, end_ e))
  /\ (forall rp finditer,
        (forall p m, In m (finditer p t) -> Spec.match_in t m) ->
        forall e, In e (ValidatedEnhanced.detect_with_regex rp finditer t) ->
                  Spec.span_ok t e)
  /\ (forall re_finditer,
        (forall source m, In m (re_finditer source t) -> Spec.match_in t m) ->
        forall e, In e (ValidatedEnhanced.detect_contextual_pii re_finditer t) ->
                  Spec.span_ok t e).
Proof.
  assert (Hml : forall wm pipe l e,
            infer wm pipe t = Ok l -> In e l ->
            word e = slice t (start e) (end_ e)
            /\ (Spec.valid_span t e -> Spec.span_ok t e)
            /\ exists results r,
                 pipe t = Ok results /\ In r results
                 /\ offsets r = Ok (start e, end_ e)).
  { intros wm pipe l e H Hin.
    destruct (infer_in wm pipe t l e H Hin) as [Hw Hex].
    split; [exact Hw|]. split; [|exact Hex].
    intros Hv. split; [exact Hv | now symmetry]. }
  split; [|split; [|split]].
  - intros pipe e. rewrite enhanced_predict_value.
    destruct (blank t); [intros []|].
    destruct (infer true pipe t) as [l|] eqn:E; [|intros []].
    now apply (Hml true pipe l e).
  - intros pipe l e. unfold Main._predict.
    destruct (blank t); [now intros [= <-] []|].
    destruct (infer false pipe t) as [l'|] eqn:E; [|discriminate].
    intros [= <-]. now apply (Hml false pipe l' e).
  - intros rp finditer Hengine e Hin.
    unfold ValidatedEnhanced.detect_with_regex in Hin.
    apply in_flat_map in Hin. destruct Hin as ([category [p|]] & _ & Hin);
      [|contradiction].
    apply in_map_iff in Hin. destruct Hin as (m & <- & Hm).
    destruct (Hengine p m Hm) as (H1 & H2 & H3).
    unfold Spec.span_ok, Spec.valid_span, Spec.span_within. cbn.
    now rewrite H3.
  - intros re_finditer Hengine e Hin.
    unfold ValidatedEnhanced.detect_contextual_pii in Hin.
    apply in_flat_map in Hin. destruct Hin as ([source category] & _ & Hin).
    apply in_map_iff in Hin. destruct Hin as (m & <- & Hm).
    destruct (Hengine source m Hm) as (H1 & H2 & H3).
    unfold Spec.span_ok, Spec.valid_span, Spec.span_within. cbn.
    now rewrite H3.
Qed.

(** C5 as stated fails: the adapter emits the entity of a result without
    offsets with [start = end = 0] and the empty word. *)
Lemma predict_emits_empty_span :
  ~ (forall (pipe : Pipe) (t : text) (e : Entity),
        In e (Enhanced._predict pipe t) -> Spec.span_ok t e).
Proof.
  intros H.
  specialize (H pipe_without_offsets (str "arun@x.co")
                {| entity_group := "EMAIL"; word := []; start := 0; end_ := 0;
                   score := (99 # 100)%Q; method := Some "ml" |}).
  destruct H as [[[_ Hlt] _] _]; [now left|].
  cbn in Hlt. lia.
Qed.

Lemma emitted_spans_witness :
  let t := str "My phone is 9876543210" in
  let e := {| entity_group := "TELEPHONENUM"; word := str "9876543210";
              start := 12; end_ := 22; score := (9 # 10)%Q;
              method := Some "ml" |} in
  let e' := {| entity_group := "TELEPHONENUM"; word := str "9876543210";
               start := 12; end_ := 22; score := (9 # 10)%Q;
               method := None |} in
  let r := {| entity_group := "TELEPHONENUM"; word := str "9876543210";
              start := 12; end_ := 22; score := float_0_95;
              method := Some "regex_enhanced" |} in
  let c := {| entity_group := "TELEPHONENUM"; word := str "9876543210";
              start := 12; end_ := 22; score := float_0_9;
              method := Some "contextual" |} in
  word e = slice t (start e) (end_ e)
  /\ word e' = slice t (start e') (end_ e')
  /\ Spec.span_ok t r
  /\ Spec.span_ok t c.
Proof.
  intros t e e' r c.
  assert (Hengine : forall m, In m (phone_matches t) -> Spec.match_in t m).
  { intros m [<-|[]]. unfold Spec.match_in. cbn. repeat split; lia. }
  destruct (emitted_spans t) as (Hml & Hmain & Hregex & Hctx).
  split; [|split; [|split]].
  - refine (proj1 (Hml pipe_with_offsets e _)). vm_compute. now left.
  - refine (proj1 (Hmain pipe_with_offsets [e'] e' eq_refl _)). now left.
  - apply (Hregex [("TELEPHONENUM", Some (literal "9876543210"))]
                  (fun _ => phone_matches)).
    + intros _. exact Hengine.
    + vm_compute. now left.
  - apply (Hctx (fun _ => phone_matches)).
    + intros _. exact Hengine.
    + vm_compute. do 2 right. now left.
Defined.

(** C6, amended.  When the classifier call raises, [_predict] of
    [enhanced_main.py] and [validated_enhanced_main.py] prints the error and
    returns the empty list.  [_predict] of [main.py] raises an HTTP 500
    error instead, whose detail is [str(e)] after ["Inference error: "]: the
    validated detection of [main.py] catches it and goes on with no ML
    candidate, and the two single-model endpoints, [/api/bert/extract] and
    [/api/llama/anonymize], let it reach the caller.  In every backend a
    result whose offsets [int()] rejects with a [ValueError] or a
    [TypeError] is dropped and the other results are returned. *)
Theorem predict_failure_handling (pipe : Pipe) (t : text) :
  (forall x,
     pipe t = Raise x ->
     Enhanced._predict pipe t = []
     /\ Main.ml_entities true (Some pipe) t = []
     /\ (blank t = false ->
         fst (Enhanced._predict_run pipe t)
         = [("❌ ML inference error: " ++ exn_str x)%string]
         /\ Main._predict pipe t
         = Raise (HTTPException 500 ("Inference error: " ++ exn_str x)%string)
         /\ Main.extract_pii_bert (Some pipe) t
            = Raise (HTTPException 500 ("Inference error: " ++ exn_str x)%string)
         /\ forall replacement,
              MainService.anonymize_pii_llama (Some pipe) t replacement
              = Raise (HTTPException 500
                         ("Inference error: " ++ exn_str x)%string)))
  /\ (forall (pipe' : Pipe) before r after x,
        pipe t = Ok (before ++ r :: after) ->
        pipe' t = Ok (before ++ after) ->
        offsets r = Raise x -> per_result x = true ->
        Enhanced._predict pipe t = Enhanced._predict pipe' t
        /\ Main._predict pipe t = Main._predict pipe' t).
Proof.
  split.
  - intros x Hp.
    assert (Hi : forall wm, infer wm pipe t = Raise x)
      by (intros wm; unfold infer; now rewrite Hp).
    rewrite enhanced_predict_value.
    unfold Enhanced._predict_run, Main.ml_entities,
      MainService.anonymize_pii_llama, Main.extract_pii_bert, Main._predict.
    rewrite !Hi. destruct (blank t); repeat split; discriminate.
  - intros pipe' before r after x Hp Hp' Ho Hx.
    assert (Hi : forall wm, infer wm pipe t = infer wm pipe' t).
    { intros wm. unfold infer. rewrite Hp, Hp'. cbn [bind].
      apply (normalize_results_skip wm t r x); [|exact Hx].
      now apply normalize_offsets_raise. }
    rewrite !enhanced_predict_value. unfold Main._predict. now rewrite !Hi.
Qed.

(** C6 as stated fails on [main.py]: its [_predict] does not return the
    empty list when the classifier raises. *)
Lemma main_predict_raises :
  ~ (forall (pipe : Pipe) (t : text) (x : exn),
        pipe t = Raise x -> Main._predict pipe t = Ok []).
Proof.
  intros H.
  specialize (H failing_pipe (str "My phone is 9876543210")
                (Exception "CUDA out of memory") eq_refl).
  discriminate.
Qed.

Lemma predict_failure_handling_witness :
  let t := str "My phone is 9876543210" in
  (Enhanced._predict failing_pipe t = []
   /\ Main.ml_entities true (Some failing_pipe) t = []
   /\ Main._predict failing_pipe t
      = Raise (HTTPException 500 "Inference error: CUDA out of memory")
   /\ MainService.anonymize_pii_llama (Some failing_pipe) t (str "[REDACTED]")
      = Raise (HTTPException 500 "Inference error: CUDA out of memory"))
  /\ (fst (Enhanced._predict_run busy_pipe t)
      = ["❌ ML inference error: 503: model busy"]
      /\ Main.extract_pii_bert (Some busy_pipe) t
         = Raise (HTTPException 500 "Inference error: 503: model busy"))
  /\ Enhanced._predict pipe_with_bad_offsets t
     = Enhanced._predict pipe_with_offsets t.
Proof.
  intros t. split; [|split].
  - destruct (proj1 (predict_failure_handling failing_pipe t)
                    (Exception "CUDA out of memory") eq_refl)
      as (H1 & H2 & H3).
    destruct (H3 eq_refl) as (_ & H4 & _ & H5).
    split; [exact H1 | split; [exact H2 | split; [exact H4 | apply H5]]].
  - destruct (proj1 (predict_failure_handling busy_pipe t)
                    (HTTPException 503 "model busy") eq_refl)
      as (_ & _ & H3).
    destruct (H3 eq_refl) as (H4 & _ & H5 & _). split; assumption.
  - refine (proj1 (proj2 (predict_failure_handling pipe_with_bad_offsets t)
                         pipe_with_offsets [] _ _ _ eq_refl eq_refl
                         eq_refl eq_refl)).
Defined.

(** ** The scenarios of the specification *)

Example anonymize_call :
  _anonymize (str "Call 9876543210 now")
             [ {| entity_group := "TELEPHONENUM"; word := str "9876543210";
                  start := 5; end_ := 15; score := (9 # 10)%Q;
                  method := Some "regex" |} ]
             (str "[REDACTED]")
  = str "Call [REDACTED] now".
Proof. reflexivity. Qed.

Example merge_same_email :
  _merge_entities [email_regex; email_ml]
  = [ {| entity_group := "EMAIL"; word := str "arun@x.co";
         start := 0; end_ := 9; score := (95 # 100)%Q;
         method := Some "regex+ml" |} ].
Proof. reflexivity. Qed.

Example merge_keeps_other_category :
  _merge_entities
    [ email_regex;
      {| entity_group := "CITY"; word := str "arun"; start := 0; end_ := 4;
         score := (9 # 10)%Q; method := Some "contextual" |} ]
  = [ email_regex;
      {| entity_group := "CITY"; word := str "arun"; start := 0; end_ := 4;
         score := (9 # 10)%Q; method := Some "contextual" |} ].
Proof. reflexivity. Qed.

Example validate_fragment_is_invalid :
  valid (Main.validate_entity
           [("AADHAAR", Some (literal "1234 5678 9012"));
            ("TELEPHONENUM", Some (literal "9876543210"));
            ("STREET", Some dot_star)]
           "AADHAAR" (str "9012") (7 # 10))
  = false.
Proof. reflexivity. Qed.

Example wildcard_is_not_chosen :
  corrected_category
    (Main.validate_entity
       [("STREET", Some dot_star); ("CITY", Some dot_star);
        ("PAN", Some (literal "AAAPA1234A")); ("GIVENNAME", Some (literal "Arun"))]
       "GIVENNAME" (str "AAAPA1234A") (9 # 10))
  = Some "PAN".
Proof. reflexivity. Qed.

(** ** Instances of the theorems with hypotheses *)

Lemma merge_entities_follows_walk_witness :
  _merge_entities [phone_regex; email_regex; email_ml]
  = [ {| entity_group := "EMAIL"; word := str "arun@x.co";
         start := 0; end_ := 9; score := (95 # 100)%Q;
         method := Some "regex+ml" |};
      phone_regex ].
Proof.
  refine (proj2 merge_entities_follows_walk
                [phone_regex; email_regex; email_ml]
                [email_regex; email_ml; phone_regex] _ _).
  - repeat constructor; discriminate.
  - split; [|split].
    + apply (Permutation_cons_app [email_regex; email_ml] []).
      apply Permutation_refl.
    + repeat constructor; cbn; lia.
    + intros k. unfold phone_regex, email_regex, email_ml. cbn [filter start].
      destruct (Z.eqb_spec 29 k), (Z.eqb_spec 0 k); (reflexivity || lia).
Defined.


Lemma anonymize_length_witness :
  len (_anonymize mail_text [email_at_29; phone_at_5] (str "[REDACTED]")) = 39.
Proof.
  refine (anonymize_length mail_text (str "[REDACTED]")
            [email_at_29; phone_at_5] _ _).
  - repeat constructor; cbn; lia.
  - constructor; [|repeat constructor].
    constructor; [|constructor]. right. cbn. lia.
Defined.

(** * Further properties of the code *)

(** ** The entity fuser *)

(** X1. [_merge_entities] returns its input unchanged exactly when the input
    is in non-decreasing order of [start] and no entity overlaps the entity
    before it with the same category. *)
Theorem merge_entities_fixed_points X :
  _merge_entities X = X
  <-> StronglySorted (fun a b => start a <= start b) X /\ separated X.
Proof.
  split.
  - intros H. rewrite <- H. apply merge_sorted_separated.
  - intros [Hs Hsep]. rewrite merge_scan.
    rewrite sort_sorted_id by now apply sorted_asc_iff.
    destruct X as [|a l]; [reflexivity|]. now apply scan_separated_id.
Qed.

Lemma scan_head_extends current rest :
  exists h tl, scan current rest = h :: tl
    /\ start h = start current /\ entity_group h = entity_group current
    /\ end_ current <= end_ h.
Proof.
  revert current. induction rest as [|e rest IH]; intros current; cbn [scan].
  - exists current, []. repeat split; lia.
  - destruct (overlaps current e).
    + destruct (IH (absorb current e)) as (h & tl & -> & Hs & Hg & He).
      exists h, tl. cbn in *. repeat split; auto; lia.
    + exists current, (scan e rest). repeat split; lia.
Qed.

Lemma scan_covers rest : forall current,
  StronglySorted (fun a b => start a <= start b) (current :: rest) ->
  forall e, In e (current :: rest) ->
  exists o, In o (scan current rest) /\ covers o e.
Proof.
  induction rest as [|x rest IH]; intros current Hs e Hin.
  - destruct Hin as [<-|[]]. exists current. split; [now left|].
    unfold covers. repeat split; lia.
  - inversion Hs as [|? ? Hs1 Hc]; subst.
    inversion Hs1 as [|? ? Hs2 Hx]; subst.
    inversion Hc as [|? ? Hcx Hcr]; subst.
    cbn [scan]. destruct (overlaps current x) eqn:E.
    + assert (Hs' : StronglySorted (fun a b => start a <= start b)
                      (absorb current x :: rest)) by now constructor.
      unfold overlaps in E. apply andb_true_iff in E. destruct E as [_ Eg].
      apply String.eqb_eq in Eg.
      destruct (scan_head_extends (absorb current x) rest)
        as (h & tl & Hscan & Hhs & Hhg & Hhe).
      cbn in Hhs, Hhg, Hhe.
      destruct Hin as [<-|[<-|Hin]].
      * exists h. split; [rewrite Hscan; now left|].
        unfold covers. repeat split; auto; lia.
      * exists h. split; [rewrite Hscan; now left|].
        unfold covers. repeat split; try congruence; lia.
      * apply (IH _ Hs'). now right.
    + destruct Hin as [<-|Hin].
      * exists current. split; [now left|]. unfold covers. repeat split; lia.
      * destruct (IH x Hs1 e Hin) as (o & Ho & Hcov).
        exists o. split; [now right | exact Hcov].
Qed.

(** X2. No candidate is lost by the merge: every candidate lies inside the
    span of an output entity of its category. *)
Theorem merge_entities_covers_candidates X e :
  In e X ->
  exists o, In o (_merge_entities X)
            /\ entity_group o = entity_group e
            /\ start o <= start e /\ end_ e <= end_ o.
Proof.
  intros Hin. rewrite merge_scan.
  pose proof (sort_sorted false X) as Hs. apply sorted_asc_iff in Hs.
  assert (Hin' : In e (sort_by_start false X))
    by (eapply Permutation_in; [apply sort_perm | exact Hin]).
  destruct (sort_by_start false X) as [|first rest]; [contradiction|].
  apply (scan_covers rest first Hs e Hin').
Qed.

Lemma merge_entities_covers_candidates_witness :
  exists o, In o (_merge_entities [phone_regex; email_regex; email_ml])
            /\ entity_group o = entity_group email_ml
            /\ start o <= start email_ml /\ end_ email_ml <= end_ o.
Proof.
  apply (merge_entities_covers_candidates
           [phone_regex; email_regex; email_ml] email_ml).
  cbn. auto.
Defined.

Lemma fmax_cases a b : fmax a b = a \/ fmax a b = b.
Proof. unfold fmax. destruct (Qle_bool b a); auto. Qed.

Lemma drawn_from_incl l l' o :
  incl l l' -> drawn_from l o -> drawn_from l' o.
Proof.
  intros Hi ((a & Ha & H1) & (b & Hb & H2) & (c & Hc & H3) & (d & Hd & H4)).
  repeat split; eauto.
Qed.

Lemma drawn_from_absorb current x rest o :
  drawn_from (absorb current x :: rest) o ->
  drawn_from (current :: x :: rest) o.
Proof.
  intros ((a & Ha & H1 & H1') & (b & Hb & H2) & (c & Hc & H3) & (d & Hd & H4)).
  repeat split.
  - destruct Ha as [<-|Ha]; [exists current | exists a]; cbn in *; auto.
  - destruct Hb as [<-|Hb]; [|exists b; cbn; auto].
    cbn in H2. destruct (Z.max_spec (end_ current) (end_ x)) as [[_ E]|[_ E]];
      rewrite E in H2; [exists x | exists current]; cbn; auto.
  - destruct Hc as [<-|Hc]; [|exists c; cbn; auto].
    cbn in H3. destruct (fmax_cases (score current) (score x)) as [E|E];
      rewrite E in H3; [exists current | exists x]; cbn; auto.
  - destruct Hd as [<-|Hd]; [exists x | exists d]; cbn in *; auto.
Qed.

Lemma scan_drawn_from rest : forall current o,
  In o (scan current rest) -> drawn_from (current :: rest) o.
Proof.
  induction rest as [|x rest IH]; intros current o Hin; cbn [scan] in Hin.
  - destruct Hin as [<-|[]]. repeat split; exists current; cbn; auto.
  - destruct (overlaps current x).
    + apply drawn_from_absorb. now apply IH.
    + destruct Hin as [<-|Hin].
      * repeat split; exists current; cbn; auto.
      * apply (drawn_from_incl (x :: rest)); [|now apply IH].
        intros y Hy. now right.
Qed.

(** X3. The merge invents no value: the [start] and the category of an
    output entity are those of one candidate, and its [end], its [score] and
    its [word] are each read from a candidate. *)
Theorem merge_entities_fields_from_candidates X o :
  In o (_merge_entities X) ->
  (exists a, In a X /\ start o = start a /\ entity_group o = entity_group a)
  /\ (exists b, In b X /\ end_ o = end_ b)
  /\ (exists c, In c X /\ score o = score c)
  /\ (exists d, In d X /\ word o = word d).
Proof.
  rewrite merge_scan. intros Hin.
  apply (drawn_from_incl (sort_by_start false X)).
  - intros y Hy. eapply Permutation_in; [apply Permutation_sym, sort_perm|].
    exact Hy.
  - destruct (sort_by_start false X) as [|first rest]; [contradiction|].
    now apply scan_drawn_from.
Qed.

Lemma merge_entities_fields_from_candidates_witness :
  exists c, In c [phone_regex; email_regex; email_ml]
            /\ score {| entity_group := "EMAIL"; word := str "arun@x.co";
                        start := 0; end_ := 9; score := (95 # 100)%Q;
                        method := Some "regex+ml" |} = score c.
Proof.
  refine (proj1 (proj2 (proj2 (merge_entities_fields_from_candidates
                   [phone_regex; email_regex; email_ml] _ _)))).
  vm_compute. now left.
Defined.

(** ** The anonymizer *)

Lemma StronglySorted_weaken {A} (R1 R2 : A -> A -> Prop) l :
  (forall a b, R1 a b -> R2 a b) -> StronglySorted R1 l -> StronglySorted R2 l.
Proof.
  intros Hw. induction 1 as [|x l Hl IH Hx]; constructor; auto.
  eapply Forall_impl; [|exact Hx]. intros y. apply Hw.
Qed.

Lemma anonymize_stitch t R X :
  Forall (Spec.valid_span t) X -> Spec.non_overlapping X ->
  _anonymize t X R = Spec.stitch t R 0 (rev (sort_by_start true X))
  /\ StronglySorted (fun a b => start a < start b) (rev (sort_by_start true X)).
Proof.
  intros Hv Hn.
  destruct (descending_sort_right_to_left t X Hv Hn) as [Hv' Hc].
  split; [|now apply (right_to_left_rev_ascending t)].
  rewrite <- fold_stitch by assumption. now destruct X.
Qed.

(** X4. For entities with valid spans that do not overlap pairwise, the
    anonymized text does not depend on the order in which the entities are
    listed. *)
Theorem anonymize_order_independent (t R : text) (X Y : list Entity) :
  Forall (Spec.valid_span t) X -> Spec.non_overlapping X ->
  Permutation X Y ->
  _anonymize t X R = _anonymize t Y R.
Proof.
  intros Hv Hn Hp.
  assert (Hv' : Forall (Spec.valid_span t) Y)
    by (eapply Permutation_Forall; eauto).
  assert (Hn' : Spec.non_overlapping Y)
    by (eapply non_overlapping_perm; eauto).
  destruct (anonymize_stitch t R X Hv Hn) as [-> HsX].
  destruct (anonymize_stitch t R Y Hv' Hn') as [-> HsY].
  f_equal. apply ascending_unique; [exact HsX| |].
  - apply (StronglySorted_weaken (fun a b : Entity => start a < start b));
      [intros a b; lia | exact HsY].
  - eapply perm_trans; [apply Permutation_sym, Permutation_rev|].
    eapply perm_trans; [apply Permutation_sym, sort_perm|].
    eapply perm_trans; [exact Hp|].
    eapply perm_trans; [apply sort_perm | apply Permutation_rev].
Qed.

Lemma anonymize_order_independent_witness :
  _anonymize mail_text [email_at_29; phone_at_5] (str "***")
  = _anonymize mail_text [phone_at_5; email_at_29] (str "***").
Proof.
  refine (anonymize_order_independent mail_text (str "***")
            [email_at_29; phone_at_5] [phone_at_5; email_at_29] _ _ _).
  - repeat constructor; cbn; lia.
  - constructor; [|repeat constructor].
    constructor; [|constructor]. right. cbn. lia.
  - apply perm_swap.
Defined.

Lemma concat_repeat_comm {A} (R : list A) n :
  List.concat (repeat R n) ++ R = R ++ List.concat (repeat R n).
Proof.
  induction n as [|n IH]; cbn; [now rewrite app_nil_r|].
  now rewrite <- app_assoc, IH.
Qed.

Lemma fold_zero_spans R D : forall t,
  Forall (fun e => start e = 0 /\ end_ e = 0) D ->
  fold_left (splice R) D t = List.concat (repeat R (List.length D)) ++ t.
Proof.
  induction D as [|d D IH]; intros t H; [reflexivity|].
  inversion H as [|? ? [Hs He] HD]; subst.
  cbn [fold_left List.length repeat List.concat]. rewrite IH by exact HD.
  unfold splice. rewrite Hs, He, slice_from_0.
  unfold slice_to, slice_index. cbn [Z.ltb Z.compare Z.min].
  replace (Z.to_nat (Z.min 0 (len t))) with 0%nat
    by (pose proof (len_nonneg t); lia).
  cbn [firstn app]. rewrite !app_assoc. f_equal.
  apply concat_repeat_comm.
Qed.

Lemma no_offsets_zero r : no_offsets r -> offsets r = Ok (0, 0).
Proof.
  unfold no_offsets, offsets. intros [[-> | ->] [-> | ->]]; reflexivity.
Qed.

Lemma main_predict_in pipe t l e :
  Main._predict pipe t = Ok l -> In e l ->
  exists results r,
    pipe t = Ok results /\ In r results /\ offsets r = Ok (start e, end_ e).
Proof.
  unfold Main._predict. destruct (blank t); [now intros [= <-] []|].
  destruct (infer false pipe t) as [l'|] eqn:E; [|discriminate].
  intros [= <-] Hin. apply (infer_in false pipe t l' e E Hin).
Qed.

(** X5. When the classifier reports no offsets, [/api/llama/anonymize]
    redacts nothing: the redacted text is the replacement token, once per
    entity, followed by the whole original text. *)
Theorem anonymize_pii_llama_without_offsets
  (pipe : Pipe) (t R : text) (results : list RawResult)
  (entities : list Entity) (redacted : text) :
  pipe t = Ok results ->
  Forall no_offsets results ->
  MainService.anonymize_pii_llama (Some pipe) t R = Ok (entities, redacted) ->
  redacted = List.concat (repeat R (List.length entities)) ++ t.
Proof.
  intros Hp Hno H. unfold MainService.anonymize_pii_llama, bind in H.
  destruct (Main._predict pipe t) as [es|] eqn:E; [|discriminate].
  injection H as <- <-.
  assert (Hz : Forall (fun e => start e = 0 /\ end_ e = 0) es).
  { rewrite Forall_forall. intros e Hin.
    destruct (main_predict_in pipe t es e E Hin) as (rs & r & Hrs & Hr & Ho).
    rewrite Hp in Hrs. injection Hrs as <-.
    rewrite Forall_forall in Hno.
    rewrite (no_offsets_zero r (Hno r Hr)) in Ho. injection Ho as <- <-.
    now split. }
  unfold _anonymize. destruct es as [|e es]; [reflexivity|].
  rewrite fold_zero_spans.
  - now rewrite sort_length.
  - eapply Permutation_Forall; [apply sort_perm | exact Hz].
Qed.

Lemma anonymize_pii_llama_without_offsets_witness :
  str "[X]arun@x.co"
  = List.concat (repeat (str "[X]") 1) ++ str "arun@x.co".
Proof.
  refine (anonymize_pii_llama_without_offsets pipe_without_offsets
            (str "arun@x.co") (str "[X]") _
            [ {| entity_group := "EMAIL"; word := []; start := 0; end_ := 0;
                 score := (99 # 100)%Q; method := None |} ]
            (str "[X]arun@x.co") eq_refl _ eq_refl).
  constructor; [|constructor]. split; right; reflexivity.
Defined.

(** ** The schema validator *)

Lemma lookup_In (patterns : Patterns) c op :
  lookup patterns c = Some op -> In (c, op) patterns.
Proof.
  induction patterns as [|[c' op'] l IH]; cbn; [discriminate|].
  destruct (String.eqb_spec c' c) as [->|].
  - intros [= ->]. now left.
  - intros H. right. now apply IH.
Qed.

Lemma specific_hit_In patterns t other :
  Main.specific_hit patterns t other = true ->
  exists q, In (other, Some q) patterns /\ re_match q t = true
            /\ lookup patterns other = Some (Some q).
Proof.
  unfold Main.specific_hit.
  destruct (lookup patterns other) as [[q|]|] eqn:E; try discriminate.
  intros H. exists q. repeat split; auto. now apply lookup_In.
Qed.

Lemma other_hit_true t other op :
  Main.other_hit t (other, op) = true ->
  other <> "STREET"
  /\ exists q, op = Some q /\ pattern q <> ".*" /\ re_match q t = true.
Proof.
  unfold Main.other_hit. intros H.
  apply andb_true_iff in H. destruct H as [Hs H].
  apply negb_true_iff in Hs. apply String.eqb_neq in Hs.
  split; [exact Hs|].
  destruct op as [q|]; [|discriminate].
  apply andb_true_iff in H. destruct H as [Hw Hm].
  apply negb_true_iff in Hw. apply String.eqb_neq in Hw.
  now exists q.
Qed.

Lemma valid_pattern_of_corrected
  (patterns : Patterns) (category : string) (t : text) (c : Q) :
  valid (Main.validate_entity patterns category t c) = true ->
  exists other q,
    corrected_category (Main.validate_entity patterns category t c) = Some other
    /\ In (other, Some q) patterns /\ re_match q t = true.
Proof.
  unfold Main.validate_entity.
  destruct (lookup patterns category) as [[p|]|] eqn:El; try discriminate.
  destruct (re_match p t) eqn:Em.
  - intros _. exists category, p. repeat split; auto. now apply lookup_In.
  - destruct (find (Main.specific_hit patterns t) Main.specific_categories)
      as [other|] eqn:F1.
    + intros _. apply find_some in F1. destruct F1 as [_ F1].
      destruct (specific_hit_In _ _ _ F1) as (q & Hin & Hm & _).
      now exists other, q.
    + destruct (find (Main.other_hit t) patterns) as [[other op]|] eqn:F2;
        [|discriminate].
      intros _. apply find_some in F2. destruct F2 as [Hin F2].
      destruct (other_hit_true _ _ _ F2) as (_ & q & -> & _ & Hm).
      now exists other, q.
Qed.

(** X6. A valid verdict of [main.py]'s [validate_entity] always names, as
    [corrected_category], a category of the table whose pattern matches the
    text from the start. *)
Theorem valid_verdict_is_backed_by_a_pattern
  (patterns : Patterns) (category : string) (t : text) (c : Q) :
  valid (Main.validate_entity patterns category t c) = true ->
  exists other q,
    corrected_category (Main.validate_entity patterns category t c) = Some other
    /\ In (other, Some q) patterns /\ re_match q t = true.
Proof. apply valid_pattern_of_corrected. Qed.

Lemma valid_verdict_is_backed_by_a_pattern_witness :
  exists other q,
    corrected_category
      (Main.validate_entity phone_table "AADHAAR" (str "9876543210") (1 # 1))
    = Some other
    /\ In (other, Some q) phone_table /\ re_match q (str "9876543210") = true.
Proof.
  exact (valid_verdict_is_backed_by_a_pattern phone_table "AADHAAR"
           (str "9876543210") (1 # 1)%Q eq_refl).
Defined.

(** X7. When [main.py]'s [validate_entity] corrects the category, the new
    category is never [STREET]; it is either one of the prioritized
    categories or a category of the table whose pattern source is not [.*];
    and it is one of the prioritized categories whenever the pattern of one
    of them matches the text. *)
Theorem corrected_category_precedence
  (patterns : Patterns) (category : string) (t : text) (c : Q) :
  original_category (Main.validate_entity patterns category t c) <> None ->
  exists other,
    corrected_category (Main.validate_entity patterns category t c) = Some other
    /\ other <> "STREET"
    /\ (In other Main.specific_categories
        \/ exists q, In (other, Some q) patterns /\ pattern q <> ".*")
    /\ ((exists s, In s Main.specific_categories
                   /\ Main.specific_hit patterns t s = true) ->
        In other Main.specific_categories).
Proof.
  unfold Main.validate_entity.
  destruct (lookup patterns category) as [[p|]|]; try (cbn; congruence).
  destruct (re_match p t); [cbn; congruence|].
  destruct (find (Main.specific_hit patterns t) Main.specific_categories)
    as [other|] eqn:F1.
  - intros _. apply find_some in F1. destruct F1 as [Hin _].
    exists other. repeat split; auto.
    intros ->. cbn in Hin. intuition discriminate.
  - destruct (find (Main.other_hit t) patterns) as [[other op]|] eqn:F2;
      [|cbn; congruence].
    intros _. apply find_some in F2. destruct F2 as [Hin F2].
    destruct (other_hit_true _ _ _ F2) as (Hs & q & -> & Hw & _).
    exists other. repeat split; auto.
    + right. now exists q.
    + intros (s & Hsin & Hhit).
      rewrite (find_none _ _ F1 s Hsin) in Hhit. discriminate.
Qed.

Lemma corrected_category_precedence_witness :
  exists other,
    corrected_category
      (Main.validate_entity wildcard_table "GIVENNAME" (str "AAAPA1234A") (9 # 10))
    = Some other
    /\ other <> "STREET"
    /\ (In other Main.specific_categories
        \/ exists q, In (other, Some q) wildcard_table /\ pattern q <> ".*")
    /\ ((exists s, In s Main.specific_categories
                   /\ Main.specific_hit wildcard_table (str "AAAPA1234A") s = true) ->
        In other Main.specific_categories).
Proof.
  refine (corrected_category_precedence wildcard_table "GIVENNAME"
            (str "AAAPA1234A") (9 # 10)%Q _).
  vm_compute. discriminate.
Defined.

(** X8. Cross-validation is stable: in a table with distinct categories,
    validating the text again under the corrected category of a valid
    verdict gives a valid verdict with that same category and no
    [original_category]. *)
Theorem corrected_category_validates
  (patterns : Patterns) (category other : string) (t : text) (c c' : Q) :
  NoDup (categories patterns) ->
  valid (Main.validate_entity patterns category t c) = true ->
  corrected_category (Main.validate_entity patterns category t c) = Some other ->
  valid (Main.validate_entity patterns other t c') = true
  /\ corrected_category (Main.validate_entity patterns other t c') = Some other
  /\ original_category (Main.validate_entity patterns other t c') = None.
Proof.
  intros Hnd Hv Hc.
  destruct (valid_pattern_of_corrected patterns category t c Hv)
    as (o & q & Ho & Hin & Hm).
  rewrite Hc in Ho. injection Ho as <-.
  unfold Main.validate_entity.
  rewrite (lookup_in patterns other (Some q) Hnd Hin), Hm. now repeat split.
Qed.

Lemma corrected_category_validates_witness :
  valid (Main.validate_entity phone_table "TELEPHONENUM" (str "9876543210") (1 # 2))
  = true
  /\ corrected_category
       (Main.validate_entity phone_table "TELEPHONENUM" (str "9876543210") (1 # 2))
     = Some "TELEPHONENUM"
  /\ original_category
       (Main.validate_entity phone_table "TELEPHONENUM" (str "9876543210") (1 # 2))
     = None.
Proof.
  exact (corrected_category_validates phone_table "AADHAAR" "TELEPHONENUM"
           (str "9876543210") (1 # 1)%Q (1 # 2)%Q
           phone_table_nodup eq_refl eq_refl).
Defined.

(** ** The validation loops *)

Lemma accepted_iff verdict min_confidence e :
  Spec.accepted verdict min_confidence e = true
  <-> valid (verdict e) = true /\ (min_confidence <= score e)%Q.
Proof. unfold Spec.accepted. now rewrite andb_true_iff, Qle_bool_iff. Qed.

Lemma main_detect_lists vp _bert_pipe _llama_pipe t use_ml min_confidence :
  let candidates :=
    Main.ml_entities use_ml _bert_pipe t ++ Main.ml_entities use_ml _llama_pipe t in
  let verdict e := Main.validate_entity vp (entity_group e) (word e) (score e) in
  Main.validated_detect_pii vp _bert_pipe _llama_pipe t use_ml min_confidence
  = (map (Spec.relabelled verdict)
         (filter (Spec.accepted verdict min_confidence) candidates),
     map (Spec.dropped verdict)
         (filter (fun e => negb (Spec.accepted verdict min_confidence e))
                 candidates)).
Proof.
  intros candidates verdict. unfold Main.validated_detect_pii.
  fold candidates. destruct (blank t) eqn:Hb.
  - assert (Hnil : candidates = []).
    { unfold candidates. now rewrite !ml_entities_blank by exact Hb. }
    now rewrite Hnil.
  - apply (main_loop vp min_confidence candidates [] []).
Qed.

(** X9. Every entity that [validated_detect_pii] of [main.py] returns as
    valid has status [VALID], a confidence of at least [min_confidence], and
    a category of the table whose pattern matches the entity's text from
    the start. *)
Theorem main_valid_entities_conform
  (vp : Patterns) (_bert_pipe _llama_pipe : option Pipe) (t : text)
  (use_ml : bool) (min_confidence : Q) (v : Validated) :
  In v (fst (Main.validated_detect_pii vp _bert_pipe _llama_pipe t use_ml
               min_confidence)) ->
  status v = VALID
  /\ (min_confidence <= score (entity v))%Q
  /\ exists q, In (entity_group (entity v), Some q) vp
               /\ re_match q (word (entity v)) = true.
Proof.
  rewrite main_detect_lists. cbn [fst]. intros Hin.
  apply in_map_iff in Hin. destruct Hin as (e & <- & He).
  apply filter_In in He. destruct He as [_ He].
  apply accepted_iff in He. destruct He as [Hv Hc].
  destruct (valid_pattern_of_corrected _ _ _ _ Hv) as (other & q & Ho & Hin & Hm).
  unfold Spec.relabelled. rewrite Ho. cbn. repeat split; auto.
  now exists q.
Qed.

Lemma main_valid_entities_conform_witness :
  let v := {| entity := {| entity_group := "TELEPHONENUM";
                           word := str "9876543210"; start := 12; end_ := 22;
                           score := (9 # 10)%Q; method := None |};
              validation :=
                Main.validate_entity phone_table "TELEPHONENUM"
                  (str "9876543210") (9 # 10);
              status := VALID; filter_reason := None;
              entity_original_category := Some "TELEPHONENUM" |} in
  status v = VALID
  /\ ((1 # 2) <= score (entity v))%Q
  /\ exists q, In (entity_group (entity v), Some q) phone_table
               /\ re_match q (word (entity v)) = true.
Proof.
  intros v.
  apply (main_valid_entities_conform phone_table (Some pipe_with_offsets) None
           (str "My phone is 9876543210") true (1 # 2)%Q v).
  vm_compute. now left.
Defined.

Lemma validated_detect_lists vp rp finditer re_finditer t min_confidence :
  let candidates :=
    ValidatedEnhanced.detect_with_regex rp finditer t
    ++ ValidatedEnhanced.detect_contextual_pii re_finditer t in
  let verdict e :=
    ValidatedEnhanced.validate_entity vp (entity_group e) (word e) (score e) in
  ValidatedEnhanced.detect_comprehensive vp rp finditer re_finditer t
    min_confidence
  = (map (Spec.kept verdict)
         (filter (Spec.accepted verdict min_confidence) candidates),
     map (Spec.dropped verdict)
         (filter (fun e => negb (Spec.accepted verdict min_confidence e))
                 candidates)).
Proof.
  intros candidates verdict. unfold ValidatedEnhanced.detect_comprehensive.
  apply (validated_loop vp min_confidence candidates [] []).
Qed.

Lemma strict_valid_matches vp category t c :
  valid (ValidatedEnhanced.validate_entity vp category t c) = true ->
  exists q, lookup vp category = Some (Some q) /\ re_match q t = true.
Proof.
  unfold ValidatedEnhanced.validate_entity.
  destruct (lookup vp category) as [[q|]|]; try discriminate.
  destruct (re_match q t) eqn:E; [|discriminate]. intros _. now exists q.
Qed.

(** X10. Every entity that [detect_comprehensive] returns as valid keeps the
    category its detector gave it, and the schema pattern of that category
    matches its text from the start; its confidence is at least
    [min_confidence]. *)
Theorem detect_comprehensive_valid_entities_conform
  (vp rp : Patterns) (finditer : Pattern -> text -> list Match)
  (re_finditer : string -> text -> list Match) (t : text)
  (min_confidence : Q) (v : Validated) :
  In v (fst (ValidatedEnhanced.detect_comprehensive vp rp finditer re_finditer
               t min_confidence)) ->
  In (entity v) (ValidatedEnhanced.detect_with_regex rp finditer t
                 ++ ValidatedEnhanced.detect_contextual_pii re_finditer t)
  /\ status v = VALID
  /\ (min_confidence <= score (entity v))%Q
  /\ exists q, lookup vp (entity_group (entity v)) = Some (Some q)
               /\ re_match q (word (entity v)) = true.
Proof.
  rewrite validated_detect_lists. cbn [fst]. intros Hin.
  apply in_map_iff in Hin. destruct Hin as (e & <- & He).
  apply filter_In in He. destruct He as [Hcand He].
  apply accepted_iff in He. destruct He as [Hv Hc].
  cbn. repeat split; auto. now apply (strict_valid_matches vp _ _ (score e)).
Qed.

Lemma detect_comprehensive_valid_entities_conform_witness :
  let e := {| entity_group := "TELEPHONENUM"; word := str "9876543210";
              start := 12; end_ := 22; score := float_0_95;
              method := Some "regex_enhanced" |} in
  (float_0_9 <= score e)%Q
  /\ exists q, lookup phone_table (entity_group e) = Some (Some q)
               /\ re_match q (word e) = true.
Proof.
  intros e.
  refine (proj2 (proj2 (detect_comprehensive_valid_entities_conform
            phone_table [("TELEPHONENUM", Some (literal "9876543210"))]
            (fun _ => phone_matches) (fun _ _ => [])
            (str "My phone is 9876543210") float_0_9
            {| entity := e;
               validation :=
                 ValidatedEnhanced.validate_entity phone_table "TELEPHONENUM"
                   (str "9876543210") float_0_95;
               status := VALID; filter_reason := None;
               entity_original_category := None |} _))).
  vm_compute. now left.
Defined.

Lemma filter_map_comm {A B} (f : A -> B) (P : B -> bool) l :
  filter P (map f l) = map f (filter (fun x => P (f x)) l).
Proof.
  induction l as [|x l IH]; cbn; [reflexivity|].
  destruct (P (f x)); cbn; now rewrite IH.
Qed.

Lemma filter_filter {A} (P Q : A -> bool) l :
  filter P (filter Q l) = filter (fun x => Q x && P x) l.
Proof.
  induction l as [|x l IH]; cbn; [reflexivity|].
  destruct (Q x); cbn; [|exact IH]. destruct (P x); now rewrite IH.
Qed.

(** X11. Raising the threshold of [detect_comprehensive] only removes
    entities from the valid list: the valid entities for the higher
    threshold are those of the lower threshold whose confidence reaches the
    higher one, in the same order. *)
Theorem detect_comprehensive_threshold_monotone
  (vp rp : Patterns) (finditer : Pattern -> text -> list Match)
  (re_finditer : string -> text -> list Match) (t : text) (low high : Q) :
  (low <= high)%Q ->
  fst (ValidatedEnhanced.detect_comprehensive vp rp finditer re_finditer t high)
  = filter (fun v => ge_conf (score (entity v)) high)
           (fst (ValidatedEnhanced.detect_comprehensive vp rp finditer
                   re_finditer t low)).
Proof.
  intros Hle. rewrite !validated_detect_lists. cbn [fst].
  rewrite filter_map_comm, filter_filter. f_equal.
  apply filter_ext. intros e. unfold Spec.accepted, ge_conf. cbn.
  destruct (valid _); cbn; [|reflexivity].
  destruct (Qle_bool high (score e)) eqn:E; [|now rewrite andb_false_r].
  apply Qle_bool_iff in E.
  assert (H : Qle_bool low (score e) = true)
    by (apply Qle_bool_iff; eapply Qle_trans; eauto).
  now rewrite H.
Qed.

Lemma detect_comprehensive_threshold_monotone_witness :
  fst (ValidatedEnhanced.detect_comprehensive phone_table
         [("TELEPHONENUM", Some (literal "9876543210"))]
         (fun _ => phone_matches) (fun _ => phone_matches)
         (str "My phone is 9876543210") (93 # 100))
  = filter (fun v => ge_conf (score (entity v)) (93 # 100))
           (fst (ValidatedEnhanced.detect_comprehensive phone_table
                   [("TELEPHONENUM", Some (literal "9876543210"))]
                   (fun _ => phone_matches) (fun _ => phone_matches)
                   (str "My phone is 9876543210") (1 # 2))).
Proof.
  apply detect_comprehensive_threshold_monotone.
  unfold Qle. cbn. lia.
Defined.

Lemma counting_fold vp min_confidence entities : forall vs fs n,
  let '(vs', fs', n') :=
    fold_left (ValidatedSummary.counting_step vp min_confidence) entities
              (vs, fs, n) in
  (vs', fs') = fold_left (ValidatedEnhanced.validate_step vp min_confidence)
                         entities (vs, fs)
  /\ n' - n = len fs' - len fs
  /\ len vs' + len fs' = len vs + len fs + len entities.
Proof.
  induction entities as [|e l IH]; intros vs fs n.
  - cbn [fold_left]. repeat split; unfold len; cbn; lia.
  - cbn [fold_left].
    unfold ValidatedSummary.counting_step at 2.
    unfold ValidatedEnhanced.validate_step at 2.
    destruct (valid _ && ge_conf (score e) min_confidence).
    + match goal with
      | |- context [fold_left _ l (?a, fs, n)] => specialize (IH a fs n)
      end.
      destruct (fold_left (ValidatedSummary.counting_step vp min_confidence) l _)
        as [[vs' fs'] n'].
      destruct IH as (H1 & H2 & H3). repeat split; auto.
      rewrite H3, len_app. unfold len. cbn. lia.
    + match goal with
      | |- context [fold_left _ l (vs, ?b, n + 1)] => specialize (IH vs b (n + 1))
      end.
      destruct (fold_left (ValidatedSummary.counting_step vp min_confidence) l _)
        as [[vs' fs'] n'].
      destruct IH as (H1 & H2 & H3). rewrite len_app in H2, H3.
      repeat split; auto; unfold len in *; cbn in *; lia.
Qed.

(** X12. The counters of the summary of [detect_comprehensive] agree with
    its lists: [filtered_entities], which the loop counts on its own, is the
    length of the filtered list, and [total_entities] and
    [filtered_entities] add up to the number of candidates. *)
Theorem summary_counts_add_up
  (vp : Patterns) (entities : list Entity) (min_confidence : Q) :
  let '(validated_entities, filtered_entities, (total, filtered)) :=
    ValidatedSummary.detect_comprehensive_counts vp entities min_confidence in
  (validated_entities, filtered_entities)
  = fold_left (ValidatedEnhanced.validate_step vp min_confidence) entities
              ([], [])
  /\ total = len validated_entities
  /\ filtered = len filtered_entities
  /\ total + filtered = len entities.
Proof.
  unfold ValidatedSummary.detect_comprehensive_counts.
  pose proof (counting_fold vp min_confidence entities [] [] 0) as H.
  destruct (fold_left (ValidatedSummary.counting_step vp min_confidence)
                      entities ([], [], 0)) as [[vs fs] n].
  destruct H as (H1 & H2 & H3). unfold len in *. cbn in *.
  repeat split; auto; lia.
Qed.

(** ** The classifier adapter *)

Lemma slice_substring {A} (l : list A) s e :
  exists p q, l = p ++ slice l s e ++ q.
Proof.
  unfold slice.
  set (m := Z.to_nat (slice_index (len l) s)).
  set (n := Z.to_nat (slice_index (len l) e - slice_index (len l) s)).
  exists (firstn m l), (skipn n (skipn m l)).
  now rewrite firstn_skipn, firstn_skipn.
Qed.

Lemma or_label_nonempty a b : b <> "" -> or_label a b <> "".
Proof.
  intros Hb. unfold or_label. destruct a as [s|]; [|exact Hb].
  destruct (String.eqb_spec s ""); auto.
Qed.

Lemma normalize_ok_tags wm t r e :
  normalize wm t r = Ok e ->
  entity_group e <> ""
  /\ method e = (if wm then Some "ml" else None).
Proof.
  unfold normalize, bind.
  destruct (get_coerced py_int (r_start r) 0) as [s|]; [|discriminate].
  destruct (get_coerced py_int (r_end r) 0) as [n|]; [|discriminate].
  destruct (get_coerced py_float (r_score r) (0 # 1)%Q); [|discriminate].
  intros [= <-]. cbn. split; [|reflexivity].
  apply or_label_nonempty, or_label_nonempty. discriminate.
Qed.

Lemma infer_in_normalize wm pipe t l e :
  infer wm pipe t = Ok l -> In e l ->
  exists results r,
    pipe t = Ok results /\ In r results /\ normalize wm t r = Ok e.
Proof.
  unfold infer, bind. destruct (pipe t) as [results|] eqn:Hp; [|discriminate].
  intros H Hin.
  destruct (normalize_results_in _ _ _ _ _ _ H Hin) as [[]|(r & Hr & Hn)].
  now exists results, r.
Qed.

Lemma enhanced_predict_in pipe t e :
  In e (Enhanced._predict pipe t) ->
  exists l, infer true pipe t = Ok l /\ In e l.
Proof.
  rewrite enhanced_predict_value. destruct (blank t); [intros []|].
  destruct (infer true pipe t) as [l|]; [|intros []].
  intros Hin. now exists l.
Qed.

Lemma main_predict_infer pipe t l e :
  Main._predict pipe t = Ok l -> In e l ->
  exists l', infer false pipe t = Ok l' /\ In e l'.
Proof.
  unfold Main._predict. destruct (blank t); [now intros [= <-] []|].
  destruct (infer false pipe t) as [l'|]; [|discriminate].
  intros [= <-] Hin. now exists l'.
Qed.

(** X13. Whatever offsets the classifier reports (negative, reversed or
    beyond the text), the [word] of an entity of [_predict] is a contiguous
    piece of the input text, in [enhanced_main.py] and in [main.py]. *)
Theorem predicted_word_is_substring (pipe : Pipe) (t : text) :
  (forall e, In e (Enhanced._predict pipe t) ->
             exists p q, t = p ++ word e ++ q)
  /\ (forall l e, Main._predict pipe t = Ok l -> In e l ->
                  exists p q, t = p ++ word e ++ q).
Proof.
  split.
  - intros e Hin. destruct (enhanced_predict_in pipe t e Hin) as (l & Hl & He).
    destruct (infer_in true pipe t l e Hl He) as [-> _].
    apply slice_substring.
  - intros l e Hl Hin.
    destruct (main_predict_infer pipe t l e Hl Hin) as (l' & Hl' & He).
    destruct (infer_in false pipe t l' e Hl' He) as [-> _].
    apply slice_substring.
Qed.

Lemma predicted_word_is_substring_witness :
  (exists p q,
     str "My phone is 9876543210"
     = p ++ word {| entity_group := "TELEPHONENUM"; word := str "9876543210";
                    start := 12; end_ := 22; score := (9 # 10)%Q;
                    method := Some "ml" |} ++ q)
  /\ (exists p q,
        str "My phone is 9876543210"
        = p ++ word {| entity_group := "TELEPHONENUM"; word := str "9876543210";
                       start := 12; end_ := 22; score := (9 # 10)%Q;
                       method := None |} ++ q).
Proof.
  destruct (predicted_word_is_substring pipe_with_offsets
              (str "My phone is 9876543210")) as [He Hm].
  split.
  - refine (He _ _). vm_compute. now left.
  - refine (Hm _ _ eq_refl _). now left.
Defined.

(** X14. Every entity of [_predict] has a non-empty label ([UNKNOWN] when
    the classifier gives none); those of [enhanced_main.py] carry the method
    [ml], those of [main.py] carry no method. *)
Theorem predicted_entities_are_tagged (pipe : Pipe) (t : text) :
  (forall e, In e (Enhanced._predict pipe t) ->
             entity_group e <> "" /\ method e = Some "ml")
  /\ (forall l e, Main._predict pipe t = Ok l -> In e l ->
                  entity_group e <> "" /\ method e = None).
Proof.
  split.
  - intros e Hin. destruct (enhanced_predict_in pipe t e Hin) as (l & Hl & He).
    destruct (infer_in_normalize true pipe t l e Hl He) as (rs & r & _ & _ & Hn).
    apply (normalize_ok_tags true t r e Hn).
  - intros l e Hl Hin.
    destruct (main_predict_infer pipe t l e Hl Hin) as (l' & Hl' & He).
    destruct (infer_in_normalize false pipe t l' e Hl' He)
      as (rs & r & _ & _ & Hn).
    apply (normalize_ok_tags false t r e Hn).
Qed.

Lemma predicted_entities_are_tagged_witness :
  (entity_group {| entity_group := "EMAIL"; word := []; start := 0; end_ := 0;
                   score := (99 # 100)%Q; method := Some "ml" |} <> ""
   /\ method {| entity_group := "EMAIL"; word := []; start := 0; end_ := 0;
                score := (99 # 100)%Q; method := Some "ml" |} = Some "ml")
  /\ (entity_group {| entity_group := "EMAIL"; word := []; start := 0;
                      end_ := 0; score := (99 # 100)%Q; method := None |} <> ""
      /\ method {| entity_group := "EMAIL"; word := []; start := 0; end_ := 0;
                   score := (99 # 100)%Q; method := None |} = None).
Proof.
  destruct (predicted_entities_are_tagged pipe_without_offsets
              (str "arun@x.co")) as [He Hm].
  split.
  - refine (He _ _). vm_compute. now left.
  - refine (Hm _ _ eq_refl _). now left.
Defined.

Lemma normalize_results_soft wm t results : forall acc,
  Forall (soft wm t) results ->
  normalize_results wm t results acc
  = Ok (acc ++ flat_map (normalized wm t) results).
Proof.
  induction results as [|r rest IH]; intros acc H; cbn.
  - now rewrite app_nil_r.
  - inversion H as [|? ? Hr Hrest]; subst. unfold normalized at 1.
    destruct (normalize wm t r) as [e|x] eqn:E.
    + rewrite IH by exact Hrest. now rewrite <- app_assoc.
    + specialize (Hr x E). rewrite IH by exact Hrest.
      destruct x; (reflexivity || discriminate).
Qed.

(** X15. When no coercion raises anything but [ValueError] or [TypeError],
    [_predict] returns the entities of the results that coerce, one per
    result and in the classifier's order; a rejected result removes nothing
    but itself. *)
Theorem predict_keeps_order
  (pipe : Pipe) (t : text) (results : list RawResult) :
  blank t = false ->
  pipe t = Ok results ->
  (Forall (soft true t) results ->
   Enhanced._predict pipe t = flat_map (normalized true t) results)
  /\ (Forall (soft false t) results ->
      Main._predict pipe t = Ok (flat_map (normalized false t) results)).
Proof.
  intros Hb Hp. split; intros Hs.
  - rewrite enhanced_predict_value, Hb. unfold infer. rewrite Hp. cbn [bind].
    now rewrite normalize_results_soft.
  - unfold Main._predict. rewrite Hb. unfold infer. rewrite Hp. cbn [bind].
    now rewrite normalize_results_soft.
Qed.

Lemma soft_bad_offsets wm :
  Forall (soft wm (str "My phone is 9876543210"))
    ([] ++
     {| r_entity_group := Some "EMAIL"; r_entity := None;
        r_score := Some (PyFloat (8 # 10)); r_word := Some (str "arun");
        r_start := Some (PyOpaque (TypeError "int() argument must be a string, a bytes-like object or a real number, not 'list'"));
        r_end := Some (PyInt 4) |}
     :: [ {| r_entity_group := Some "TELEPHONENUM"; r_entity := None;
             r_score := Some (PyFloat (9 # 10));
             r_word := Some (str "##3210");
             r_start := Some (PyInt 12); r_end := Some (PyInt 22) |} ]).
Proof.
  constructor; [|constructor; [|constructor]]; intros x.
  - cbn. now intros [= <-].
  - destruct wm; cbn; discriminate.
Qed.

Lemma predict_keeps_order_witness :
  Enhanced._predict pipe_with_bad_offsets (str "My phone is 9876543210")
  = [ {| entity_group := "TELEPHONENUM"; word := str "9876543210";
         start := 12; end_ := 22; score := (9 # 10)%Q; method := Some "ml" |} ]
  /\ Main._predict pipe_with_bad_offsets (str "My phone is 9876543210")
     = Ok [ {| entity_group := "TELEPHONENUM"; word := str "9876543210";
               start := 12; end_ := 22; score := (9 # 10)%Q; method := None |} ].
Proof.
  destruct (predict_keeps_order pipe_with_bad_offsets
              (str "My phone is 9876543210") _ eq_refl eq_refl) as [He Hm].
  split.
  - exact (He (soft_bad_offsets true)).
  - exact (Hm (soft_bad_offsets false)).
Defined.

Lemma normalize_results_hard wm t results : forall acc r x,
  In r results -> normalize wm t r = Raise x -> per_result x = false ->
  exists y, normalize_results wm t results acc = Raise y.
Proof.
  induction results as [|r' rest IH]; intros acc r x Hin Hr Hx; [contradiction|].
  cbn. destruct (normalize wm t r') as [e|y] eqn:E.
  - destruct Hin as [->|Hin]; [congruence|]. now apply (IH _ r x).
  - destruct (per_result y) eqn:Ey.
    + destruct Hin as [->|Hin]; [congruence|].
      destruct y; try discriminate; now apply (IH _ r x).
    + exists y. destruct y; (discriminate || reflexivity).
Qed.

(** X16. A coercion that raises another exception than [ValueError] or
    [TypeError] is not handled per result: all the results of the call are
    lost.  [_predict] of [enhanced_main.py] returns the empty list and that
    of [main.py] raises the HTTP 500 error. *)
Theorem predict_loses_all_on_other_exception
  (pipe : Pipe) (t : text) (results : list RawResult) (r : RawResult) (x : exn) :
  blank t = false ->
  pipe t = Ok results -> In r results ->
  offsets r = Raise x -> per_result x = false ->
  Enhanced._predict pipe t = []
  /\ exists detail, Main._predict pipe t = Raise (HTTPException 500 detail).
Proof.
  intros Hb Hp Hin Ho Hx.
  assert (Hi : forall wm, exists y, infer wm pipe t = Raise y).
  { intros wm. unfold infer. rewrite Hp. cbn [bind].
    apply (normalize_results_hard wm t results [] r x Hin); [|exact Hx].
    now apply normalize_offsets_raise. }
  split.
  - rewrite enhanced_predict_value, Hb. destruct (Hi true) as [y ->].
    reflexivity.
  - unfold Main._predict. rewrite Hb. destruct (Hi false) as [y ->].
    eexists. reflexivity.
Qed.

Lemma predict_loses_all_on_other_exception_witness :
  Enhanced._predict pipe_with_overflow (str "My phone is 9876543210") = []
  /\ exists detail,
       Main._predict pipe_with_overflow (str "My phone is 9876543210")
       = Raise (HTTPException 500 detail).
Proof.
  refine (predict_loses_all_on_other_exception pipe_with_overflow
            (str "My phone is 9876543210") _ overflow_result
            (Exception "cannot convert float infinity to integer")
            eq_refl eq_refl _ eq_refl eq_refl).
  right. now left.
Defined.

(** ** The endpoints of [enhanced_main.py] and [main.py] *)

Lemma merge_drawn_from X o :
  In o (_merge_entities X) -> drawn_from X o.
Proof.
  rewrite merge_scan. intros Hin.
  apply (drawn_from_incl (sort_by_start false X)).
  - intros y Hy. eapply Permutation_in; [apply Permutation_sym, sort_perm|].
    exact Hy.
  - destruct (sort_by_start false X) as [|first rest]; [contradiction|].
    now apply scan_drawn_from.
Qed.

(** X17. Every entity that [enhanced_detect_pii] returns has a confidence of
    at least [min_confidence], also when it was merged from several
    candidates, and the entities are in non-decreasing order of [start]. *)
Theorem enhanced_detect_respects_threshold
  (finditer : Pattern -> text -> list Match)
  (re_finditer re_finditer_cs : string -> text -> list Match)
  (_enhanced_detector : option Patterns) (_bert_pipe _llama_pipe : option Pipe)
  (t : text) (use_regex use_contextual use_ml : bool) (min_confidence : Q)
  (entities : list Entity) :
  EnhancedService.enhanced_detect_pii finditer re_finditer re_finditer_cs
    _enhanced_detector _bert_pipe _llama_pipe t
    use_regex use_contextual use_ml min_confidence = Ok entities ->
  Forall (fun e => (min_confidence <= score e)%Q) entities
  /\ StronglySorted (fun a b => start a <= start b) entities.
Proof.
  unfold EnhancedService.enhanced_detect_pii.
  destruct _enhanced_detector as [rp|]; [|discriminate].
  intros [= <-]. split; [|apply merge_sorted_separated].
  rewrite Forall_forall. intros o Ho.
  destruct (merge_drawn_from _ _ Ho) as (_ & _ & (c & Hc & ->) & _).
  apply filter_In in Hc. destruct Hc as [_ Hc].
  unfold ge_conf in Hc. now apply Qle_bool_iff.
Qed.

Lemma enhanced_detect_respects_threshold_witness :
  Forall (fun e => ((1 # 2) <= score e)%Q)
         [ {| entity_group := "TELEPHONENUM"; word := str "9876543210";
              start := 12; end_ := 22; score := float_0_95;
              method := Some "regex_enhanced+ml" |} ]
  /\ StronglySorted (fun a b => start a <= start b)
       [ {| entity_group := "TELEPHONENUM"; word := str "9876543210";
            start := 12; end_ := 22; score := float_0_95;
            method := Some "regex_enhanced+ml" |} ].
Proof.
  apply (enhanced_detect_respects_threshold
           (fun _ => phone_matches) (fun _ _ => []) (fun _ _ => [])
           (Some [("TELEPHONENUM", Some (literal "9876543210"))])
           (Some pipe_with_offsets) None
           (str "My phone is 9876543210") true true true (1 # 2)%Q).
  reflexivity.
Defined.

Lemma enhanced_predict_raise (pipe : Pipe) t x :
  pipe t = Raise x -> Enhanced._predict pipe t = [].
Proof.
  intros Hp. rewrite enhanced_predict_value. unfold infer. rewrite Hp.
  now destruct (blank t).
Qed.

(** X18. In [enhanced_detect_pii] a classifier whose call raises changes
    nothing: the entities are those returned when that classifier is not
    loaded, so that the pattern detectors and the other classifier still
    contribute. *)
Theorem enhanced_detect_degrades
  (finditer : Pattern -> text -> list Match)
  (re_finditer re_finditer_cs : string -> text -> list Match)
  (_enhanced_detector : option Patterns) (pipe : Pipe) (other : option Pipe)
  (t : text) (use_regex use_contextual use_ml : bool) (min_confidence : Q)
  (x : exn) :
  pipe t = Raise x ->
  EnhancedService.enhanced_detect_pii finditer re_finditer re_finditer_cs
    _enhanced_detector (Some pipe) other t
    use_regex use_contextual use_ml min_confidence
  = EnhancedService.enhanced_detect_pii finditer re_finditer re_finditer_cs
      _enhanced_detector None other t
      use_regex use_contextual use_ml min_confidence
  /\ EnhancedService.enhanced_detect_pii finditer re_finditer re_finditer_cs
       _enhanced_detector other (Some pipe) t
       use_regex use_contextual use_ml min_confidence
     = EnhancedService.enhanced_detect_pii finditer re_finditer re_finditer_cs
         _enhanced_detector other None t
         use_regex use_contextual use_ml min_confidence.
Proof.
  intros Hp.
  unfold EnhancedService.enhanced_detect_pii, EnhancedService.collect.
  assert (H : EnhancedService.ml_entities (Some pipe) t
              = EnhancedService.ml_entities None t)
    by (cbn; now apply (enhanced_predict_raise pipe t x)).
  now rewrite !H.
Qed.

Lemma enhanced_detect_degrades_witness :
  EnhancedService.enhanced_detect_pii
    (fun _ => phone_matches) (fun _ _ => []) (fun _ _ => [])
    (Some [("TELEPHONENUM", Some (literal "9876543210"))])
    (Some failing_pipe) (Some pipe_with_offsets)
    (str "My phone is 9876543210") true true true (1 # 2)
  = EnhancedService.enhanced_detect_pii
      (fun _ => phone_matches) (fun _ _ => []) (fun _ _ => [])
      (Some [("TELEPHONENUM", Some (literal "9876543210"))])
      None (Some pipe_with_offsets)
      (str "My phone is 9876543210") true true true (1 # 2)
  /\ EnhancedService.enhanced_detect_pii
       (fun _ => phone_matches) (fun _ _ => []) (fun _ _ => [])
       (Some [("TELEPHONENUM", Some (literal "9876543210"))])
       (Some pipe_with_offsets) (Some failing_pipe)
       (str "My phone is 9876543210") true true true (1 # 2)
     = EnhancedService.enhanced_detect_pii
         (fun _ => phone_matches) (fun _ _ => []) (fun _ _ => [])
         (Some [("TELEPHONENUM", Some (literal "9876543210"))])
         (Some pipe_with_offsets) None
         (str "My phone is 9876543210") true true true (1 # 2).
Proof.
  exact (enhanced_detect_degrades
           (fun _ => phone_matches) (fun _ _ => []) (fun _ _ => [])
           (Some [("TELEPHONENUM", Some (literal "9876543210"))])
           failing_pipe (Some pipe_with_offsets)
           (str "My phone is 9876543210") true true true (1 # 2)%Q
           (Exception "CUDA out of memory") eq_refl).
Defined.

Lemma main_ml_entities_raise use_ml (pipe : Pipe) t x :
  pipe t = Raise x -> Main.ml_entities use_ml (Some pipe) t = [].
Proof.
  intros Hp. unfold Main.ml_entities, Main._predict, infer. rewrite Hp.
  destruct use_ml; [|reflexivity]. now destruct (blank t).
Qed.

(** X19. In [validated_detect_pii] of [main.py] a classifier whose call
    raises changes nothing: both output lists are those obtained when that
    classifier is not loaded, so that the other classifier still
    contributes. *)
Theorem main_validated_detect_degrades
  (vp : Patterns) (pipe : Pipe) (other : option Pipe) (t : text)
  (use_ml : bool) (min_confidence : Q) (x : exn) :
  pipe t = Raise x ->
  Main.validated_detect_pii vp (Some pipe) other t use_ml min_confidence
  = Main.validated_detect_pii vp None other t use_ml min_confidence
  /\ Main.validated_detect_pii vp other (Some pipe) t use_ml min_confidence
     = Main.validated_detect_pii vp other None t use_ml min_confidence.
Proof.
  intros Hp. unfold Main.validated_detect_pii.
  rewrite (main_ml_entities_raise use_ml pipe t x Hp).
  assert (H : Main.ml_entities use_ml None t = [])
    by now destruct use_ml.
  now rewrite H.
Qed.

Lemma main_validated_detect_degrades_witness :
  Main.validated_detect_pii phone_table (Some failing_pipe)
    (Some pipe_with_offsets) (str "My phone is 9876543210") true (1 # 2)
  = Main.validated_detect_pii phone_table None
      (Some pipe_with_offsets) (str "My phone is 9876543210") true (1 # 2)
  /\ Main.validated_detect_pii phone_table (Some pipe_with_offsets)
       (Some failing_pipe) (str "My phone is 9876543210") true (1 # 2)
     = Main.validated_detect_pii phone_table (Some pipe_with_offsets)
         None (str "My phone is 9876543210") true (1 # 2).
Proof.
  exact (main_validated_detect_degrades phone_table failing_pipe
           (Some pipe_with_offsets) (str "My phone is 9876543210") true
           (1 # 2)%Q (Exception "CUDA out of memory") eq_refl).
Defined.

(** ** [detect_with_ml] of [enhanced_pii_detector.py] *)

Lemma convert_results_acc model_type results : forall acc l,
  PIIDetector.convert_results model_type results acc = Ok l ->
  exists l', l = acc ++ l'
    /\ Forall2 (fun r e => PIIDetector.convert model_type r = Ok e) results l'.
Proof.
  induction results as [|r rest IH]; intros acc l H; cbn in H.
  - injection H as <-. exists []. split; [now rewrite app_nil_r | constructor].
  - unfold bind in H.
    destruct (PIIDetector.convert model_type r) as [e|] eqn:E; [|discriminate].
    destruct (IH _ _ H) as (l' & -> & Hl').
    exists (e :: l'). split; [now rewrite <- app_assoc|]. now constructor.
Qed.

Lemma convert_ok model_type r e :
  PIIDetector.convert model_type r = Ok e ->
  word e = match r_word r with Some w => w | None => [] end
  /\ r_start r <> Some PyNone /\ r_end r <> Some PyNone.
Proof.
  unfold PIIDetector.convert, bind.
  destruct (r_start r) as [[| | |]|]; cbn; try discriminate;
    destruct (r_end r) as [[| | |]|]; cbn; try discriminate;
    destruct (py_float _); try discriminate;
    intros [= <-]; cbn; repeat split; discriminate.
Qed.

Lemma Forall2_pick {A B} (R : A -> B -> Prop) l l' x :
  Forall2 R l l' -> In x l -> exists y, In y l' /\ R x y.
Proof.
  induction 1 as [|a b l l' Hab Hl IH]; intros Hin; [contradiction|].
  destruct Hin as [<-|Hin].
  - exists b. split; [now left | exact Hab].
  - destruct (IH Hin) as (y & Hy & Hr). exists y. split; [now right | exact Hr].
Qed.

(** X20. [detect_with_ml] is all or nothing: it returns either the empty
    list or one entity per result of the classifier, in order, each with the
    surface form the classifier reported as [word]; and it returns the
    empty list as soon as one result has a [None] offset. *)
Theorem detect_with_ml_all_or_nothing
  (bert_pipe llama_pipe : option Pipe) (model_type : string) (pipe : Pipe)
  (t : text) (results : list RawResult) :
  (if String.eqb model_type "bert" then bert_pipe else llama_pipe) = Some pipe ->
  pipe t = Ok results ->
  let entities := PIIDetector.detect_with_ml bert_pipe llama_pipe t model_type in
  (entities = []
   \/ Forall2 (fun r e =>
                 word e = match r_word r with Some w => w | None => [] end)
              results entities)
  /\ (Exists (fun r => r_start r = Some PyNone \/ r_end r = Some PyNone) results ->
      entities = []).
Proof.
  intros Hsel Hp entities. subst entities.
  unfold PIIDetector.detect_with_ml. rewrite Hsel, Hp. cbn [bind].
  destruct (PIIDetector.convert_results model_type results []) as [l|] eqn:E.
  - destruct (convert_results_acc _ _ _ _ E) as (l' & -> & Hl'). cbn [app].
    split.
    + right. eapply Forall2_impl; [|exact Hl'].
      intros r e Hc. now apply (convert_ok model_type r e).
    + intros Hex. exfalso. apply Exists_exists in Hex.
      destruct Hex as (r & Hr & Hnone).
      destruct (Forall2_pick _ _ _ r Hl' Hr) as (e & _ & Hc).
      apply convert_ok in Hc. destruct Hc as (_ & Hs & He). tauto.
  - split; [now left | reflexivity].
Qed.

Lemma detect_with_ml_all_or_nothing_witness :
  PIIDetector.detect_with_ml (Some pipe_without_offsets) None
    (str "arun@x.co") "bert" = [].
Proof.
  refine (proj2 (detect_with_ml_all_or_nothing (Some pipe_without_offsets) None
                   "bert" pipe_without_offsets (str "arun@x.co") _
                   eq_refl eq_refl) _).
  constructor. now left.
Defined.

(** X21. When the call of every loaded classifier raises,
    [/api/validated/anonymize] of [main.py] returns no entity and leaves
    the text unchanged. *)
Theorem validated_anonymize_without_classifier
  (vp : Patterns) (bert llama : Pipe) (t R : text) (x y : exn) :
  bert t = Raise x -> llama t = Raise y ->
  MainService.validated_anonymize_pii vp (Some bert) (Some llama) t R
  = ([], [], t).
Proof.
  intros Hb Hl.
  unfold MainService.validated_anonymize_pii, Main.validated_detect_pii.
  rewrite (main_ml_entities_raise true bert t x Hb).
  rewrite (main_ml_entities_raise true llama t y Hl).
  now destruct (blank t).
Qed.

Lemma validated_anonymize_without_classifier_witness :
  MainService.validated_anonymize_pii phone_table (Some failing_pipe)
    (Some failing_pipe) (str "My phone is 9876543210") (str "[REDACTED]")
  = ([], [], str "My phone is 9876543210").
Proof.
  exact (validated_anonymize_without_classifier phone_table failing_pipe
           failing_pipe (str "My phone is 9876543210") (str "[REDACTED]")
           (Exception "CUDA out of memory") (Exception "CUDA out of memory")
           eq_refl eq_refl).
Defined.

(** ** The coercions *)

Lemma float_of_int_exact z :
  Z.abs z < 2 ^ 53 -> float_of_int z = Ok (inject_Z z).
Proof.
  intros H. unfold float_of_int.
  destruct (Z.eqb_spec (Z.abs z) 0) as [E|E]; [reflexivity|].
  assert (Hl : Z.log2 (Z.abs z) < 53) by (apply Z.log2_lt_pow2; lia).
  destruct (Z.leb_spec (Z.log2 (Z.abs z) + 1) 53); [reflexivity | lia].
Qed.

Example float_of_int_rounds_to_even :
  float_of_int (2 ^ 53 + 1) = Ok (inject_Z (2 ^ 53))
  /\ float_of_int (2 ^ 53 + 3) = Ok (inject_Z (2 ^ 53 + 4))
  /\ float_of_int (- (2 ^ 53 + 1)) = Ok (inject_Z (- 2 ^ 53)).
Proof. repeat split. Qed.

Example float_of_int_overflows :
  float_of_int (10 ^ 400)
  = Raise (Exception "int too large to convert to float")
  /\ float_of_int (2 ^ 1024 - 2 ^ 970)
     = Raise (Exception "int too large to convert to float")
  /\ float_of_int (2 ^ 1024 - 2 ^ 970 - 1)
     = Ok (inject_Z (2 ^ 1024 - 2 ^ 971)).
Proof. vm_compute. repeat split. Qed.

Example huge_score_loses_all_results :
  Enhanced._predict pipe_with_huge_score (str "My phone is 9876543210") = []
  /\ Main._predict pipe_with_huge_score (str "My phone is 9876543210")
     = Raise (HTTPException 500
                "Inference error: int too large to convert to float").
Proof. vm_compute. split; reflexivity. Qed.

Example http_exception_prints_its_status :
  exn_str (HTTPException 503 "model busy") = "503: model busy".
Proof. reflexivity. Qed.
